(** * bytesophos: the relational store and the web client, embedded in Rocq

    The development follows the repository's sources:

    - [db/migrations/0002__user_and_role_schema.sql]: the tables, their keys
      and foreign keys, the name-filling trigger of [repos] and the indexes;
    - [src/api/repos.ts], [src/api/conversations.ts]: the client wrappers;
    - [src/pages/ChatPage.tsx], [src/components/QueryForm.tsx],
      [src/components/Sidebar.tsx]: the readiness gate of an ask, the context
      cache kept in [localStorage] and the delete handler.

    Text is ASCII text ([string]); SQL [NULL] and JavaScript [undefined] are
    [None]; a statement or a call that raises is an explicit error result. *)

From Stdlib Require Import ZArith List String Ascii Bool Lia DecimalString.
From stdpp Require Import gmap strings list fin_maps.
Import ListNotations.

Set Warnings "-register-all".
Local Open Scope string_scope.
Local Open Scope list_scope.

(* ===================================================================== *)
(** * Text primitives shared by the SQL and the JavaScript parts          *)
(* ===================================================================== *)

Module Text.

Definition chars : string -> list ascii := list_ascii_of_string.
Definition text : list ascii -> string := string_of_list_ascii.

Definition is_upper (c : ascii) : bool :=
  let n := nat_of_ascii c in Nat.leb 65 n && Nat.leb n 90.

(** [lower] of PostgreSQL and [toLowerCase] of JavaScript on ASCII text. *)
Definition lower_ascii (c : ascii) : ascii :=
  if is_upper c then ascii_of_nat (nat_of_ascii c + 32) else c.

Definition lower_chars (l : list ascii) : list ascii := List.map lower_ascii l.

Definition lower (s : string) : string := text (lower_chars (chars s)).

Definition is_space (c : ascii) : bool := Ascii.eqb c " ".
Definition is_slash (c : ascii) : bool := Ascii.eqb c "/".
Definition is_colon (c : ascii) : bool := Ascii.eqb c ":".

(** Drop the longest prefix of characters satisfying [p]. *)
Fixpoint drop_while (p : ascii -> bool) (l : list ascii) : list ascii :=
  match l with
  | c :: r => if p c then drop_while p r else l
  | [] => []
  end.

Definition trim_both (p : ascii -> bool) (l : list ascii) : list ascii :=
  rev (drop_while p (rev (drop_while p l))).

(** [btrim(x)]: spaces (and only spaces) removed from both ends. *)
Definition btrim (s : string) : string := text (trim_both is_space (chars s)).

(** The white space [String.prototype.trim] removes, within ASCII:
    tab, line feed, vertical tab, form feed, carriage return, space. *)
Definition is_js_space (c : ascii) : bool :=
  let n := nat_of_ascii c in (Nat.leb 9 n && Nat.leb n 13) || Nat.eqb n 32.

Definition js_trim (s : string) : string := text (trim_both is_js_space (chars s)).

Fixpoint starts_with (pre l : list ascii) : bool :=
  match pre, l with
  | [], _ => true
  | a :: pre', b :: l' => Ascii.eqb a b && starts_with pre' l'
  | _ :: _, [] => false
  end.

(** [needle] occurs somewhere in [l]. *)
Fixpoint occurs (needle l : list ascii) : bool :=
  starts_with needle l ||
  match l with
  | [] => false
  | _ :: r => occurs needle r
  end.

Definition ends_with (suf l : list ascii) : bool := starts_with (rev suf) (rev l).

(** Remove the last [n] characters. *)
Definition drop_last (n : nat) (l : list ascii) : list ascii :=
  firstn (List.length l - n) l.

(** Decimal numeral of an integer, as [String(n)] and [`${n}`] print it. *)
Definition decimal (n : Z) : string := NilZero.string_of_int (Z.to_int n).

End Text.

(* ===================================================================== *)
(** * [derive_repo_name]: the display name derived from a source locator  *)
(* ===================================================================== *)

Module RepoName.
Import Text.

(** [nullif(x, y)] and [coalesce(x, d)] on nullable text. *)
Definition nullif (x : option string) (y : string) : option string :=
  match x with
  | Some v => if v =? y then None else Some v
  | None => None
  end.

Definition coalesce (x : option string) (d : string) : string :=
  match x with
  | Some v => v
  | None => d
  end.

(** [s ~* 'github\.com']: the literal occurs in [s], letter case ignored. *)
Definition matches_github (s : string) : bool :=
  occurs (chars "github.com") (lower_chars (chars s)).

(** The tail [([^/]+?)(?:\.git)?/?$] of the first pattern, matched against
    the whole of [r]; the result is group 1. An optional final ["/"] is
    consumed by [/?]; what is left must be non-empty and free of ["/"]; the
    lazy group gives up a final [".git"] whenever something remains. *)
Definition strip_slash (r : list ascii) : list ascii :=
  if ends_with (chars "/") r then drop_last 1 r else r.

Definition strip_dot_git (b : list ascii) : list ascii :=
  if ends_with (chars ".git") b && Nat.ltb 4 (List.length b)
  then drop_last 4 b else b.

Definition tail_group (r : list ascii) : option (list ascii) :=
  match strip_slash r with
  | [] => None
  | body => if forallb (fun c => negb (is_slash c)) body
            then Some (strip_dot_git body) else None
  end.

(** [.*[/:]] followed by the tail: the greedy [.*] takes the right-most
    separator after which the tail still matches. *)
Fixpoint github_group (l : list ascii) : option (list ascii) :=
  match l with
  | [] => None
  | c :: r =>
      match github_group r with
      | Some g => Some g
      | None => if is_slash c || is_colon c then tail_group r else None
      end
  end.

(** [regexp_replace(s, '.*[/:]([^/]+?)(?:\.git)?/?$', '\1')]: a match covers
    the whole text, which is replaced by group 1; without a match the text
    is returned as it is. *)
Definition regexp_replace_segment (s : string) : string :=
  match github_group (chars s) with
  | Some g => text g
  | None => s
  end.

(** [regexp_replace(p, '.*/', '')]: everything up to the last ["/"] goes. *)
Fixpoint after_last_slash (l : list ascii) : option (list ascii) :=
  match l with
  | [] => None
  | c :: r =>
      match after_last_slash r with
      | Some a => Some a
      | None => if is_slash c then Some r else None
      end
  end.

Definition regexp_replace_dirs (p : string) : string :=
  match after_last_slash (chars p) with
  | Some a => text a
  | None => p
  end.

(** [regexp_replace(base, '\.(zip|tar|tgz|tar\.gz|tar\.bz2)$', '', 'i')]. *)
Definition archive_suffixes : list string :=
  [".zip"; ".tar"; ".tgz"; ".tar.gz"; ".tar.bz2"].

Definition regexp_replace_archive (base : string) : string :=
  let l := chars base in
  match List.find (fun suf => ends_with (chars suf) (lower_chars l)) archive_suffixes with
  | Some suf => text (drop_last (String.length suf) l)
  | None => base
  end.

Definition derive_repo_name (_source_uri _storage_path _fallback : option string) : string :=
  let s := coalesce (nullif (option_map btrim _source_uri) "") "" in
  let p := coalesce (nullif (option_map btrim _storage_path) "") "" in
  let by_fallback := lower (coalesce (nullif (option_map btrim _fallback) "") "repo") in
  if matches_github s then
    lower (regexp_replace_segment s)
  else if negb (p =? "") then
    let base := regexp_replace_dirs p in
    let base := regexp_replace_archive base in
    if negb (base =? "") then lower base else by_fallback
  else by_fallback.

End RepoName.

(* ===================================================================== *)
(** * The relational store declared by the migration                      *)
(* ===================================================================== *)

(** Tables are lists of rows. A statement is run against the store and
    either yields the next store or raises ([None]), leaving the store as
    it was. Columns that carry no constraint beyond their type and take
    part in no key (titles, time stamps, [jsonb] metadata, [tsvector]s and
    the metadata-sync trigger of [documents]) are not part of the rows.
    [DELETE] on [users] is not among the statements. *)

Module Schema.
Import Text RepoName.

Definition uuid := N.
(** [real] and [double precision] values, by their IEEE bit patterns: the
    schema never computes with them. *)
Definition float4 := Z.
Definition float8 := Z.
(** A pgvector value; the column type [vector(1536)] fixes its length. *)
Definition vector := list float4.
Definition embedding_dim : nat := 1536.

(** [integer] columns hold 32-bit values; anything else is out of range. *)
Definition int4 (z : Z) : Prop := (-2147483648 <= z <= 2147483647)%Z.
Definition int4_opt (z : option Z) : Prop :=
  match z with Some v => int4 v | None => True end.

Record user := {
  user_id : uuid;
  user_email : string }.

Record repo := {
  repo_id : string;
  repo_owner_user_id : option uuid;
  repo_source_type : string;
  repo_source_uri : option string;
  repo_storage_path : string;
  repo_name : string }.

(** [NEW] of a row-level trigger on [repos]: the proposed column values,
    before any [NOT NULL] constraint is looked at. *)
Record repo_new := {
  new_id : option string;
  new_owner_user_id : option uuid;
  new_source_type : option string;
  new_source_uri : option string;
  new_storage_path : option string;
  new_name : option string }.

Record conversation := {
  conversation_id : uuid;
  conv_repo_id : string;
  conv_user_id : option uuid }.

Record message := {
  message_id : uuid;
  msg_conversation_id : option uuid;
  msg_user_id : option uuid;
  msg_content : string;
  msg_role : string }.

Record document := {
  document_id : uuid;
  doc_repo_id : string;
  doc_version : Z;
  doc_checksum : option string;
  doc_ingestion_status : string }.

Record document_chunk := {
  chunk_id : uuid;
  chunk_document_id : option uuid;
  chunk_text : string;
  chunk_hash : string;
  chunk_index : Z;
  chunk_start_offset : option Z;
  chunk_end_offset : option Z;
  chunk_embedding : option vector;
  chunk_embedding_model : option string }.

Record rag_query := {
  query_id : uuid;
  query_conversation_id : option uuid;
  query_user_id : option uuid;
  query_text : string;
  query_response_text : option string }.

Record retrieved_chunk := {
  retrieved_id : uuid;
  rc_rag_query_id : option uuid;
  rc_document_chunk_id : option uuid;
  rc_score : option float8;
  rc_rank : option Z;
  rc_used_in_prompt : bool }.

Record db := {
  users : list user;
  repos : list repo;
  conversations : list conversation;
  messages : list message;
  documents : list document;
  document_chunks : list document_chunk;
  rag_queries : list rag_query;
  retrieved_chunks : list retrieved_chunk }.

Definition empty_db : db :=
  {| users := []; repos := []; conversations := []; messages := [];
     documents := []; document_chunks := []; rag_queries := [];
     retrieved_chunks := [] |}.

Definition with_users (d : db) (x : list user) : db :=
  {| users := x; repos := repos d; conversations := conversations d;
     messages := messages d; documents := documents d;
     document_chunks := document_chunks d; rag_queries := rag_queries d;
     retrieved_chunks := retrieved_chunks d |}.

Definition with_repos (d : db) (x : list repo) : db :=
  {| users := users d; repos := x; conversations := conversations d;
     messages := messages d; documents := documents d;
     document_chunks := document_chunks d; rag_queries := rag_queries d;
     retrieved_chunks := retrieved_chunks d |}.

Definition with_conversations (d : db) (x : list conversation) : db :=
  {| users := users d; repos := repos d; conversations := x;
     messages := messages d; documents := documents d;
     document_chunks := document_chunks d; rag_queries := rag_queries d;
     retrieved_chunks := retrieved_chunks d |}.

Definition with_messages (d : db) (x : list message) : db :=
  {| users := users d; repos := repos d; conversations := conversations d;
     messages := x; documents := documents d;
     document_chunks := document_chunks d; rag_queries := rag_queries d;
     retrieved_chunks := retrieved_chunks d |}.

Definition with_documents (d : db) (x : list document) : db :=
  {| users := users d; repos := repos d; conversations := conversations d;
     messages := messages d; documents := x;
     document_chunks := document_chunks d; rag_queries := rag_queries d;
     retrieved_chunks := retrieved_chunks d |}.

Definition with_document_chunks (d : db) (x : list document_chunk) : db :=
  {| users := users d; repos := repos d; conversations := conversations d;
     messages := messages d; documents := documents d;
     document_chunks := x; rag_queries := rag_queries d;
     retrieved_chunks := retrieved_chunks d |}.

Definition with_rag_queries (d : db) (x : list rag_query) : db :=
  {| users := users d; repos := repos d; conversations := conversations d;
     messages := messages d; documents := documents d;
     document_chunks := document_chunks d; rag_queries := x;
     retrieved_chunks := retrieved_chunks d |}.

Definition with_retrieved_chunks (d : db) (x : list retrieved_chunk) : db :=
  {| users := users d; repos := repos d; conversations := conversations d;
     messages := messages d; documents := documents d;
     document_chunks := document_chunks d; rag_queries := rag_queries d;
     retrieved_chunks := x |}.

(** ** Constraints *)

(** A foreign key value is fine when it is [NULL] or names a key. *)
Definition ref_ok {K} (fk : option K) (keys : list K) : Prop :=
  match fk with Some k => k ∈ keys | None => True end.

(** A foreign key value points into [keys]. *)
Definition ref_in {K} (fk : option K) (keys : list K) : Prop :=
  match fk with Some k => k ∈ keys | None => False end.

#[global] Instance ref_ok_dec {K} `{EqDecision K} (fk : option K) keys :
  Decision (ref_ok fk keys).
Proof. destruct fk; simpl; apply _. Defined.

#[global] Instance ref_in_dec {K} `{EqDecision K} (fk : option K) keys :
  Decision (ref_in fk keys).
Proof. destruct fk; simpl; apply _. Defined.

#[global] Instance int4_dec z : Decision (int4 z).
Proof. unfold int4. apply _. Defined.

#[global] Instance int4_opt_dec z : Decision (int4_opt z).
Proof. destruct z; simpl; apply _. Defined.

(** [vector(1536)]: a value of any other length is refused. *)
Definition dim_ok (e : option vector) : Prop :=
  match e with Some v => List.length v = embedding_dim | None => True end.

#[global] Instance dim_ok_dec e : Decision (dim_ok e).
Proof. destruct e; simpl; apply _. Defined.

(** [ux_repos_owner_name]: a unique index on [(owner_user_id, name)]; rows
    whose owner is [NULL] never collide. *)
Definition owner_name_taken (o : option uuid) (nm : string) (rs : list repo) : Prop :=
  Exists (fun r => is_Some o /\ repo_owner_user_id r = o /\ repo_name r = nm) rs.

(** ** The trigger [trg_repos_fill_name] *)

Definition repos_before_ins_upd_fill_name (NEW : repo_new) : repo_new :=
  let blank :=
    match new_name NEW with
    | None => true
    | Some n => btrim n =? ""
    end in
  if blank then
    {| new_id := new_id NEW;
       new_owner_user_id := new_owner_user_id NEW;
       new_source_type := new_source_type NEW;
       new_source_uri := new_source_uri NEW;
       new_storage_path := new_storage_path NEW;
       new_name := Some (derive_repo_name (new_source_uri NEW)
                           (new_storage_path NEW) (new_id NEW)) |}
  else NEW.

(** The [NOT NULL] columns and the [CHECK] on [source_type]. *)
Definition repo_of_new (NEW : repo_new) : option repo :=
  match new_id NEW, new_source_type NEW, new_storage_path NEW, new_name NEW with
  | Some i, Some st, Some sp, Some nm =>
      if decide (st = "git" \/ st = "upload") then
        Some {| repo_id := i; repo_owner_user_id := new_owner_user_id NEW;
                repo_source_type := st; repo_source_uri := new_source_uri NEW;
                repo_storage_path := sp; repo_name := nm |}
      else None
  | _, _, _, _ => None
  end.

(** ** INSERT *)

Definition insert_user (u : user) (d : db) : option db :=
  if decide (user_id u ∈ user_id <$> users d) then None
  else if decide (user_email u ∈ user_email <$> users d) then None
  else Some (with_users d (u :: users d)).

Definition insert_repo (NEW : repo_new) (d : db) : option db :=
  match repo_of_new (repos_before_ins_upd_fill_name NEW) with
  | None => None
  | Some r =>
      if decide (repo_id r ∈ repo_id <$> repos d) then None
      else if decide (ref_ok (repo_owner_user_id r) (user_id <$> users d)) then
        if decide (owner_name_taken (repo_owner_user_id r) (repo_name r) (repos d))
        then None
        else Some (with_repos d (r :: repos d))
      else None
  end.

Definition insert_conversation (c : conversation) (d : db) : option db :=
  if decide (conversation_id c ∈ conversation_id <$> conversations d) then None
  else if decide (conv_repo_id c ∈ repo_id <$> repos d) then
    if decide (ref_ok (conv_user_id c) (user_id <$> users d))
    then Some (with_conversations d (c :: conversations d))
    else None
  else None.

Definition insert_message (m : message) (d : db) : option db :=
  if decide (message_id m ∈ message_id <$> messages d) then None
  else if decide (msg_role m = "user" \/ msg_role m = "assistant" \/ msg_role m = "system") then
    if decide (ref_ok (msg_conversation_id m) (conversation_id <$> conversations d)) then
      if decide (ref_ok (msg_user_id m) (user_id <$> users d))
      then Some (with_messages d (m :: messages d))
      else None
    else None
  else None.

Definition insert_document (x : document) (d : db) : option db :=
  if decide (document_id x ∈ document_id <$> documents d) then None
  else if decide (doc_repo_id x ∈ repo_id <$> repos d) then
    if decide (int4 (doc_version x))
    then Some (with_documents d (x :: documents d))
    else None
  else None.

(** What a row of [document_chunks] must satisfy besides its key: the
    foreign key, the ranges of the integer columns, the vector length. *)
Definition chunk_row_ok (c : document_chunk) (d : db) : Prop :=
  ref_ok (chunk_document_id c) (document_id <$> documents d) /\
  int4 (chunk_index c) /\
  int4_opt (chunk_start_offset c) /\
  int4_opt (chunk_end_offset c) /\
  dim_ok (chunk_embedding c).

Definition insert_document_chunk (c : document_chunk) (d : db) : option db :=
  if decide (chunk_id c ∈ chunk_id <$> document_chunks d) then None
  else if decide (chunk_row_ok c d)
  then Some (with_document_chunks d (c :: document_chunks d))
  else None.

Definition insert_rag_query (q : rag_query) (d : db) : option db :=
  if decide (query_id q ∈ query_id <$> rag_queries d) then None
  else if decide (ref_ok (query_conversation_id q) (conversation_id <$> conversations d)) then
    if decide (ref_ok (query_user_id q) (user_id <$> users d))
    then Some (with_rag_queries d (q :: rag_queries d))
    else None
  else None.

Definition retrieved_row_ok (x : retrieved_chunk) (d : db) : Prop :=
  ref_ok (rc_rag_query_id x) (query_id <$> rag_queries d) /\
  ref_ok (rc_document_chunk_id x) (chunk_id <$> document_chunks d) /\
  int4_opt (rc_rank x).

Definition insert_retrieved_chunk (x : retrieved_chunk) (d : db) : option db :=
  if decide (retrieved_id x ∈ retrieved_id <$> retrieved_chunks d) then None
  else if decide (retrieved_row_ok x d)
  then Some (with_retrieved_chunks d (x :: retrieved_chunks d))
  else None.

(** ** UPDATE *)

(** The [SET] list of an [UPDATE repos ... WHERE id = r]: [None] for a
    column the statement does not assign, [Some v] for one it sets to [v]. *)
Record repo_set := {
  set_id : option (option string);
  set_owner_user_id : option (option uuid);
  set_source_type : option (option string);
  set_source_uri : option (option string);
  set_storage_path : option (option string);
  set_name : option (option string) }.

Definition assigned {A} (s : option A) (old : A) : A :=
  match s with Some v => v | None => old end.

(** [BEFORE ... UPDATE OF source_uri, storage_path, name, id]: the trigger
    runs when one of these columns is in the [SET] list. *)
Definition in_set_list {A} (s : option A) : bool :=
  match s with Some _ => true | None => false end.

Definition fill_name_fires (s : repo_set) : bool :=
  in_set_list (set_source_uri s) || in_set_list (set_storage_path s)
  || in_set_list (set_name s) || in_set_list (set_id s).

Definition updated_repo_new (old : repo) (s : repo_set) : repo_new :=
  let NEW :=
    {| new_id := assigned (set_id s) (Some (repo_id old));
       new_owner_user_id := assigned (set_owner_user_id s) (repo_owner_user_id old);
       new_source_type := assigned (set_source_type s) (Some (repo_source_type old));
       new_source_uri := assigned (set_source_uri s) (repo_source_uri old);
       new_storage_path := assigned (set_storage_path s) (Some (repo_storage_path old));
       new_name := assigned (set_name s) (Some (repo_name old)) |} in
  if fill_name_fires s then repos_before_ins_upd_fill_name NEW else NEW.

(** The key of a repository that conversations or documents refer to
    cannot be changed (the foreign keys have no [ON UPDATE] action). *)
Definition repo_referenced (r : string) (d : db) : Prop :=
  r ∈ conv_repo_id <$> conversations d \/ r ∈ doc_repo_id <$> documents d.

Definition update_repo (r : string) (s : repo_set) (d : db) : option db :=
  match List.find (fun x => bool_decide (repo_id x = r)) (repos d) with
  | None => Some d
  | Some old =>
      match repo_of_new (updated_repo_new old s) with
      | None => None
      | Some row =>
          let others := filter (fun x => repo_id x <> r) (repos d) in
          if decide (repo_id row ∈ repo_id <$> others) then None
          else if decide (ref_ok (repo_owner_user_id row) (user_id <$> users d)) then
            if decide (owner_name_taken (repo_owner_user_id row) (repo_name row) others)
            then None
            else if decide (repo_id row <> r /\ repo_referenced r d) then None
            else Some (with_repos d (row :: others))
          else None
      end
  end.

(** [UPDATE document_chunks SET ... WHERE id = chunk_id c]: the row with
    that key takes the column values of [c] (the embedding phase fills
    [embedding] and [embedding_model] this way). *)
Definition update_document_chunk (c : document_chunk) (d : db) : option db :=
  if decide (chunk_id c ∈ chunk_id <$> document_chunks d) then
    if decide (chunk_row_ok c d)
    then Some (with_document_chunks d
                 (c :: filter (fun x => chunk_id x <> chunk_id c) (document_chunks d)))
    else None
  else Some d.

Definition update_retrieved_chunk (x : retrieved_chunk) (d : db) : option db :=
  if decide (retrieved_id x ∈ retrieved_id <$> retrieved_chunks d) then
    if decide (retrieved_row_ok x d)
    then Some (with_retrieved_chunks d
                 (x :: filter (fun y => retrieved_id y <> retrieved_id x) (retrieved_chunks d)))
    else None
  else Some d.

(** ** DELETE and the [ON DELETE] actions *)

(** [rag_queries.conversation_id] and [messages.conversation_id] cascade,
    and so does [retrieved_chunks.rag_query_id]. *)
Definition remove_rag_queries (gone : list uuid) (d : db) : db :=
  with_retrieved_chunks
    (with_rag_queries d (filter (fun q => query_id q ∉ gone) (rag_queries d)))
    (filter (fun x => ~ ref_in (rc_rag_query_id x) gone) (retrieved_chunks d)).

Definition remove_conversations (gone : list uuid) (d : db) : db :=
  let queries_gone :=
    query_id <$> filter (fun q => ref_in (query_conversation_id q) gone) (rag_queries d) in
  remove_rag_queries queries_gone
    (with_messages
       (with_conversations d
          (filter (fun c => conversation_id c ∉ gone) (conversations d)))
       (filter (fun m => ~ ref_in (msg_conversation_id m) gone) (messages d))).

(** [document_chunks.document_id] cascades. *)
Definition remove_documents (gone : list uuid) (d : db) : db :=
  with_document_chunks
    (with_documents d (filter (fun x => document_id x ∉ gone) (documents d)))
    (filter (fun c => ~ ref_in (chunk_document_id c) gone) (document_chunks d)).

(** [retrieved_chunks.document_chunk_id REFERENCES document_chunks(id)] has
    no [ON DELETE] action: when the statement and its cascades are done, no
    remaining audit row may refer to a chunk the statement removed. *)
Definition chunks_removed (old new : db) : list uuid :=
  filter (fun k => k ∉ chunk_id <$> document_chunks new) (chunk_id <$> document_chunks old).

Definition no_action_ok (old new : db) : Prop :=
  Forall (fun x => ~ ref_in (rc_document_chunk_id x) (chunks_removed old new))
         (retrieved_chunks new).

Definition checked (old new : db) : option db :=
  if decide (no_action_ok old new) then Some new else None.

(** [DELETE FROM repos WHERE id = r]: [conversations.repo_id] and
    [documents.repo_id] cascade. *)
Definition delete_repo (r : string) (d : db) : option db :=
  let conversations_gone :=
    conversation_id <$> filter (fun c => conv_repo_id c = r) (conversations d) in
  let documents_gone :=
    document_id <$> filter (fun x => doc_repo_id x = r) (documents d) in
  if decide (r ∈ repo_id <$> repos d) then
    checked d
      (remove_documents documents_gone
         (remove_conversations conversations_gone
            (with_repos d (filter (fun x => repo_id x <> r) (repos d)))))
  else Some d.

Definition delete_conversation (c : uuid) (d : db) : option db :=
  checked d (remove_conversations [c] d).

Definition delete_rag_query (q : uuid) (d : db) : option db :=
  checked d (remove_rag_queries [q] d).

Definition delete_document (x : uuid) (d : db) : option db :=
  checked d (remove_documents [x] d).

Definition delete_document_chunk (c : uuid) (d : db) : option db :=
  checked d (with_document_chunks d
               (filter (fun x => chunk_id x <> c) (document_chunks d))).

Definition delete_retrieved_chunk (x : uuid) (d : db) : option db :=
  Some (with_retrieved_chunks d
          (filter (fun y => retrieved_id y <> x) (retrieved_chunks d))).

Definition delete_message (m : uuid) (d : db) : option db :=
  Some (with_messages d (filter (fun y => message_id y <> m) (messages d))).

(** ** Statements and the stores they can build *)

Inductive statement :=
| InsertUser (u : user)
| InsertRepo (NEW : repo_new)
| UpdateRepo (r : string) (s : repo_set)
| DeleteRepo (r : string)
| InsertConversation (c : conversation)
| DeleteConversation (c : uuid)
| InsertMessage (m : message)
| DeleteMessage (m : uuid)
| InsertDocument (x : document)
| DeleteDocument (x : uuid)
| InsertDocumentChunk (c : document_chunk)
| UpdateDocumentChunk (c : document_chunk)
| DeleteDocumentChunk (c : uuid)
| InsertRagQuery (q : rag_query)
| DeleteRagQuery (q : uuid)
| InsertRetrievedChunk (x : retrieved_chunk)
| UpdateRetrievedChunk (x : retrieved_chunk)
| DeleteRetrievedChunk (x : uuid).

Definition exec (st : statement) (d : db) : option db :=
  match st with
  | InsertUser u => insert_user u d
  | InsertRepo NEW => insert_repo NEW d
  | UpdateRepo r s => update_repo r s d
  | DeleteRepo r => delete_repo r d
  | InsertConversation c => insert_conversation c d
  | DeleteConversation c => delete_conversation c d
  | InsertMessage m => insert_message m d
  | DeleteMessage m => delete_message m d
  | InsertDocument x => insert_document x d
  | DeleteDocument x => delete_document x d
  | InsertDocumentChunk c => insert_document_chunk c d
  | UpdateDocumentChunk c => update_document_chunk c d
  | DeleteDocumentChunk c => delete_document_chunk c d
  | InsertRagQuery q => insert_rag_query q d
  | DeleteRagQuery q => delete_rag_query q d
  | InsertRetrievedChunk x => insert_retrieved_chunk x d
  | UpdateRetrievedChunk x => update_retrieved_chunk x d
  | DeleteRetrievedChunk x => delete_retrieved_chunk x d
  end.

(** A script runs its statements in order and stops at the first error. *)
Fixpoint run (script : list statement) (d : db) : option db :=
  match script with
  | [] => Some d
  | st :: rest =>
      match exec st d with
      | Some d' => run rest d'
      | None => None
      end
  end.

(** The stores that accepted statements build from the empty store. *)
Inductive reachable : db -> Prop :=
| reachable_empty : reachable empty_db
| reachable_exec st d d' : reachable d -> exec st d = Some d' -> reachable d'.

(** ** What the constraints maintain *)

(** Primary keys: no two rows of a table share their [id]. *)
Record keys_ok (d : db) : Prop := {
  key_users : NoDup (user_id <$> users d);
  key_repos : NoDup (repo_id <$> repos d);
  key_conversations : NoDup (conversation_id <$> conversations d);
  key_messages : NoDup (message_id <$> messages d);
  key_documents : NoDup (document_id <$> documents d);
  key_document_chunks : NoDup (chunk_id <$> document_chunks d);
  key_rag_queries : NoDup (query_id <$> rag_queries d);
  key_retrieved_chunks : NoDup (retrieved_id <$> retrieved_chunks d) }.

(** Column constraints: a repository has a name, an embedding has the
    declared length. *)
Record rows_ok (d : db) : Prop := {
  row_repo_named : Forall (fun r => repo_name r <> "") (repos d);
  row_chunk_dim : Forall (fun c => dim_ok (chunk_embedding c)) (document_chunks d) }.

(** Foreign keys: every reference is [NULL] or names a row that exists. *)
Record integrity (d : db) : Prop := {
  fk_repo_owner :
    Forall (fun r => ref_ok (repo_owner_user_id r) (user_id <$> users d)) (repos d);
  fk_conversation_repo :
    Forall (fun c => conv_repo_id c ∈ repo_id <$> repos d) (conversations d);
  fk_conversation_user :
    Forall (fun c => ref_ok (conv_user_id c) (user_id <$> users d)) (conversations d);
  fk_message_conversation :
    Forall (fun m => ref_ok (msg_conversation_id m) (conversation_id <$> conversations d))
           (messages d);
  fk_message_user :
    Forall (fun m => ref_ok (msg_user_id m) (user_id <$> users d)) (messages d);
  fk_document_repo :
    Forall (fun x => doc_repo_id x ∈ repo_id <$> repos d) (documents d);
  fk_chunk_document :
    Forall (fun c => ref_ok (chunk_document_id c) (document_id <$> documents d))
           (document_chunks d);
  fk_query_conversation :
    Forall (fun q => ref_ok (query_conversation_id q) (conversation_id <$> conversations d))
           (rag_queries d);
  fk_query_user :
    Forall (fun q => ref_ok (query_user_id q) (user_id <$> users d)) (rag_queries d);
  fk_retrieved_query :
    Forall (fun x => ref_ok (rc_rag_query_id x) (query_id <$> rag_queries d))
           (retrieved_chunks d);
  fk_retrieved_chunk :
    Forall (fun x => ref_ok (rc_document_chunk_id x) (chunk_id <$> document_chunks d))
           (retrieved_chunks d) }.

(** ** The declared indexes *)

Inductive access_method := Btree | Gin | Ivfflat.

(** pgvector's operator classes name the distance an index is built for. *)
Inductive operator_class :=
| Default_ops | Vector_l2_ops | Vector_ip_ops | Vector_cosine_ops.

Inductive distance := Euclidean | InnerProduct | Cosine.

Definition opclass_distance (o : operator_class) : option distance :=
  match o with
  | Vector_l2_ops => Some Euclidean
  | Vector_ip_ops => Some InnerProduct
  | Vector_cosine_ops => Some Cosine
  | Default_ops => None
  end.

Record index := {
  index_name : string;
  index_unique : bool;
  index_table : string;
  index_method : access_method;
  index_columns : list string;
  index_opclass : operator_class }.

Definition schema_indexes : list index :=
  [ {| index_name := "ux_repos_owner_name"; index_unique := true;
       index_table := "repos"; index_method := Btree;
       index_columns := ["owner_user_id"; "name"]; index_opclass := Default_ops |};
    {| index_name := "idx_repos_owner"; index_unique := false;
       index_table := "repos"; index_method := Btree;
       index_columns := ["owner_user_id"]; index_opclass := Default_ops |};
    {| index_name := "idx_repos_created"; index_unique := false;
       index_table := "repos"; index_method := Btree;
       index_columns := ["created_at"]; index_opclass := Default_ops |};
    {| index_name := "idx_conversations_repo_id"; index_unique := false;
       index_table := "conversations"; index_method := Btree;
       index_columns := ["repo_id"]; index_opclass := Default_ops |};
    {| index_name := "idx_documents_repo_id"; index_unique := false;
       index_table := "documents"; index_method := Btree;
       index_columns := ["repo_id"]; index_opclass := Default_ops |};
    {| index_name := "idx_documents_title"; index_unique := false;
       index_table := "documents"; index_method := Btree;
       index_columns := ["title"]; index_opclass := Default_ops |};
    {| index_name := "idx_document_chunks_search_vector"; index_unique := false;
       index_table := "document_chunks"; index_method := Gin;
       index_columns := ["search_vector"]; index_opclass := Default_ops |};
    {| index_name := "idx_document_chunks_embedding"; index_unique := false;
       index_table := "document_chunks"; index_method := Ivfflat;
       index_columns := ["embedding"]; index_opclass := Vector_l2_ops |};
    {| index_name := "idx_rag_queries_conversation_created"; index_unique := false;
       index_table := "rag_queries"; index_method := Btree;
       index_columns := ["conversation_id"; "created_at"]; index_opclass := Default_ops |};
    {| index_name := "idx_retrieved_chunks_rag_query_id"; index_unique := false;
       index_table := "retrieved_chunks"; index_method := Btree;
       index_columns := ["rag_query_id"]; index_opclass := Default_ops |};
    {| index_name := "idx_retrieved_chunks_used"; index_unique := false;
       index_table := "retrieved_chunks"; index_method := Btree;
       index_columns := ["rag_query_id"; "used_in_prompt"]; index_opclass := Default_ops |} ].

(** The indexes over a column of a table. *)
Definition indexes_on (table column : string) : list index :=
  List.filter (fun i => (index_table i =? table) && existsb (String.eqb column) (index_columns i))
              schema_indexes.

End Schema.

(* ===================================================================== *)
(** * JavaScript values, errors and the HTTP client                       *)
(* ===================================================================== *)

Module Js.
Import Text.

(** What [JSON.parse] and the HTTP client hand to the program. Numbers are
    the integer-valued ones (identifiers, counts); objects are finite maps
    from property names to values. *)
Inductive json :=
| JNull
| JBool (b : bool)
| JNum (n : Z)
| JStr (s : string)
| JArr (l : list json)
| JObj (o : gmap string json).

(** A JavaScript value as the wrappers see it: [undefined] or JSON. *)
Definition value := option json.

Definition undefined : value := None.

(** [raw?.k]: [undefined] on [undefined], on [null] and on whatever has no
    own property [k]. *)
Definition get (raw : value) (k : string) : value :=
  match raw with
  | Some (JObj o) => o !! k
  | _ => None
  end.

(** [a ?? b] *)
Definition nullish (a b : value) : value :=
  match a with
  | None | Some JNull => b
  | Some _ => a
  end.

Infix "??" := nullish (at level 45, right associativity).

(** [x ?? null] at the end of a chain: never [undefined]. *)
Definition or_null (a : value) : json :=
  match a with
  | Some v => v
  | None => JNull
  end.

(** Truthiness: what [!x], [x || y] and [Boolean(x)] test. *)
Definition truthy (v : value) : bool :=
  match v with
  | None | Some JNull => false
  | Some (JBool b) => b
  | Some (JNum n) => negb (n =? 0)%Z
  | Some (JStr s) => negb (s =? "")
  | Some (JArr _) | Some (JObj _) => true
  end.

(** [String(v)] *)
Fixpoint to_string (v : json) : string :=
  match v with
  | JNull => "null"
  | JBool true => "true"
  | JBool false => "false"
  | JNum n => decimal n
  | JStr s => s
  | JArr l =>
      String.concat ","
        (List.map (fun x => match x with JNull => "" | _ => to_string x end) l)
  | JObj _ => "[object Object]"
  end.

(** An exception value: its [name], its [message], and [response.status]
    when the HTTP client raised it for an answered request. *)
Record error := {
  err_name : string;
  err_message : string;
  err_response_status : option Z }.

Definition Error (msg : string) : error :=
  {| err_name := "Error"; err_message := msg; err_response_status := None |}.


(** How a call ends: it returns or it throws. *)
Inductive outcome (A : Type) :=
| Return (a : A)
| Throw (e : error).

Arguments Return {A} a.
Arguments Throw {A} e.

(** The body of an answered request: [res.data]. *)
Record response := { data : value }.

End Js.

(* ===================================================================== *)
(** * A reference JSON text codec                                         *)
(* ===================================================================== *)

(** [JSON.stringify] and [JSON.parse] are parameters of the page model. This
    printer and parser for compact JSON text (integers, strings with
    escaped quotes and backslashes, arrays, objects) stand in for them
    where an example needs text. *)

Module JsonText.
Import Text Js.

Definition quote : ascii := "034"%char.
Definition backslash : ascii := "092"%char.

Definition is_digit (c : ascii) : bool :=
  let n := nat_of_ascii c in Nat.leb 48 n && Nat.leb n 57.

Definition print_string (s : string) : list ascii :=
  quote :: flat_map (fun c => if Ascii.eqb c quote || Ascii.eqb c backslash
                              then [backslash; c] else [c]) (chars s)
    ++ [quote].

Fixpoint join (sep : list ascii) (parts : list (list ascii)) : list ascii :=
  match parts with
  | [] => []
  | [p] => p
  | p :: rest => p ++ sep ++ join sep rest
  end.

Fixpoint print (v : json) : list ascii :=
  match v with
  | JNull => chars "null"
  | JBool true => chars "true"
  | JBool false => chars "false"
  | JNum n => chars (decimal n)
  | JStr s => print_string s
  | JArr l => chars "[" ++ join (chars ",") (List.map print l) ++ chars "]"
  | JObj o =>
      chars "{"
        ++ join (chars ",")
             (map_fold (fun k x acc => (print_string k ++ chars ":" ++ print x) :: acc) [] o)
        ++ chars "}"
  end.

Definition stringify (v : json) : string := text (print v).

(** A string literal, its opening quote already read. *)
Fixpoint parse_string (l acc : list ascii) : option (string * list ascii) :=
  match l with
  | [] => None
  | c :: r =>
      if Ascii.eqb c quote then Some (text (rev acc), r)
      else if Ascii.eqb c backslash then
        match r with
        | e :: r' => parse_string r' (e :: acc)
        | [] => None
        end
      else parse_string r (c :: acc)
  end.

Fixpoint take_digits (l : list ascii) (acc : Z) : Z * list ascii :=
  match l with
  | c :: r =>
      if is_digit c
      then take_digits r (10 * acc + Z.of_nat (nat_of_ascii c - 48))%Z
      else (acc, l)
  | [] => (acc, [])
  end.

Definition parse_number (l : list ascii) : option (json * list ascii) :=
  match l with
  | c :: r =>
      if Ascii.eqb c "-" then
        match r with
        | d :: _ => if is_digit d
                    then let '(n, rest) := take_digits r 0%Z in Some (JNum (- n), rest)
                    else None
        | [] => None
        end
      else if is_digit c
      then let '(n, rest) := take_digits l 0%Z in Some (JNum n, rest)
      else None
  | [] => None
  end.

Fixpoint parse_value (fuel : nat) (l : list ascii) : option (json * list ascii) :=
  match fuel with
  | O => None
  | S n =>
      if starts_with (chars "null") l then Some (JNull, skipn 4 l)
      else if starts_with (chars "true") l then Some (JBool true, skipn 4 l)
      else if starts_with (chars "false") l then Some (JBool false, skipn 5 l)
      else if starts_with (chars "[]") l then Some (JArr [], skipn 2 l)
      else if starts_with (chars "{}") l then Some (JObj ∅, skipn 2 l)
      else
        match l with
        | c :: r =>
            if Ascii.eqb c quote then
              match parse_string r [] with
              | Some (s, r') => Some (JStr s, r')
              | None => None
              end
            else if Ascii.eqb c "[" then parse_elements n r []
            else if Ascii.eqb c "{" then parse_members n r ∅
            else parse_number l
        | [] => None
        end
  end
with parse_elements (fuel : nat) (l : list ascii) (acc : list json)
  : option (json * list ascii) :=
  match fuel with
  | O => None
  | S n =>
      match parse_value n l with
      | Some (v, c :: r) =>
          if Ascii.eqb c "," then parse_elements n r (acc ++ [v])
          else if Ascii.eqb c "]" then Some (JArr (acc ++ [v]), r)
          else None
      | _ => None
      end
  end
with parse_members (fuel : nat) (l : list ascii) (acc : gmap string json)
  : option (json * list ascii) :=
  match fuel with
  | O => None
  | S n =>
      match l with
      | q :: r =>
          if Ascii.eqb q quote then
            match parse_string r [] with
            | Some (k, c :: r') =>
                if Ascii.eqb c ":" then
                  match parse_value n r' with
                  | Some (v, c' :: r'') =>
                      if Ascii.eqb c' "," then parse_members n r'' (<[k := v]> acc)
                      else if Ascii.eqb c' "}" then Some (JObj (<[k := v]> acc), r'')
                      else None
                  | _ => None
                  end
                else None
            | _ => None
            end
          else None
      | [] => None
      end
  end.

Definition parse (s : string) : option json :=
  match parse_value (S (String.length s)) (chars s) with
  | Some (v, []) => Some v
  | _ => None
  end.

End JsonText.

(* ===================================================================== *)
(** * [src/api/conversations.ts]                                          *)
(* ===================================================================== *)

Module Conversations.
Import Text Js.

Record Conversation := {
  convo_id : string;
  convo_repo_id : string;
  convo_title : json;
  convo_created_at : json;
  convo_updated_at : json;
  convo_latest_question : json }.

Definition normalizeConvo (raw : value) : option Conversation :=
  let id :=
    get raw "id" ?? get raw "conversation_id" ?? get raw "conversationId"
      ?? get raw "pk" ?? Some JNull in
  let repo_id :=
    get raw "repo_id" ?? get raw "repoId" ?? get raw "repository_id" ?? Some JNull in
  if negb (truthy id) || negb (truthy repo_id) then None
  else
    Some {| convo_id := to_string (or_null id);
            convo_repo_id := to_string (or_null repo_id);
            convo_title :=
              or_null (get raw "title" ?? get raw "name" ?? get raw "latest_question"
                         ?? get (get raw "first_message") "content" ?? Some JNull);
            convo_created_at :=
              or_null (get raw "created_at" ?? get raw "createdAt" ?? Some JNull);
            convo_updated_at :=
              or_null (get raw "updated_at" ?? get raw "updatedAt" ?? Some JNull);
            convo_latest_question := or_null (get raw "latest_question" ?? Some JNull) |}.


Definition defined (v : value) : bool :=
  match v with
  | None | Some JNull => false
  | Some _ => true
  end.




(** [getConversation] and [createConversation], given how the request ends. *)
Definition getConversation (reply : outcome response) : outcome (option Conversation) :=
  match reply with
  | Return res => Return (normalizeConvo (data res))
  | Throw e => Throw e
  end.

Definition createConversation (reply : outcome response) : outcome (option Conversation) :=
  match reply with
  | Return res => Return (normalizeConvo (get (data res) "conversation" ?? data res))
  | Throw e => Throw e
  end.

End Conversations.

(* ===================================================================== *)
(** * [src/api/repos.ts]                                                  *)
(* ===================================================================== *)

Module Repos.
Import Text Js.

(** [deleteRepo]: [res.data?.status === "deleted"] for an answered request;
    a rejected request is not caught here. *)
Definition deleteRepo (reply : outcome response) : outcome bool :=
  match reply with
  | Return res =>
      Return (match get (data res) "status" with
              | Some (JStr s) => s =? "deleted"
              | _ => false
              end)
  | Throw e => Throw e
  end.

Inductive source_kind := Git | Upload.

Record RepoBrief := {
  brief_id : string;
  brief_label : string;
  brief_source_type : option source_kind }.





End Repos.

(* ===================================================================== *)
(** * Effects: a world threaded through calls that may throw              *)
(* ===================================================================== *)

Module Effects.
Import Js.

(** A computation over a world [W]: it ends by returning or throwing, and
    what it did to the world stays done in both cases. *)
Definition M (W A : Type) : Type := W -> outcome A * W.

Definition ret {W A} (a : A) : M W A := fun w => (Return a, w).

Definition throw {W A} (e : error) : M W A := fun w => (Throw e, w).

Definition bind {W A B} (m : M W A) (k : A -> M W B) : M W B :=
  fun w =>
    match m w with
    | (Return a, w') => k a w'
    | (Throw e, w') => (Throw e, w')
    end.

(** [try { m } catch (e) { h e }] *)
Definition try_catch {W A} (m : M W A) (h : error -> M W A) : M W A :=
  fun w =>
    match m w with
    | (Return a, w') => (Return a, w')
    | (Throw e, w') => h e w'
    end.

(** [try { m } finally { f }] *)
Definition try_finally {W A} (m : M W A) (f : M W unit) : M W A :=
  fun w =>
    let '(r, w') := m w in
    match f w' with
    | (Return _, w'') => (r, w'')
    | (Throw e, w'') => (Throw e, w'')
    end.

Definition read {W} : M W W := fun w => (Return w, w).

Definition modify {W} (f : W -> W) : M W unit := fun w => (Return tt, f w).

(** [await] of a call whose end the environment decides. *)
Definition await {W A} (r : outcome A) : M W A := fun w => (r, w).

Notation "'let*' x ':=' m 'in' k" := (bind m (fun x => k))
  (at level 10, x name, k at level 200).
Notation "m '>>' k" := (bind m (fun _ => k))
  (at level 100, right associativity).

End Effects.

(* ===================================================================== *)
(** * [localStorage]                                                      *)
(* ===================================================================== *)

Module WebStorage.
Import Js.

(** The storage area of an origin: its items, the room the browser grants
    it, and whether access to it is denied altogether. *)
Record Storage := {
  items : gmap string string;
  capacity : N;
  denied : bool }.

Definition used (m : gmap string string) : N :=
  map_fold (fun k v n => N.of_nat (String.length k) + N.of_nat (String.length v) + n)%N
           0%N m.

Definition SecurityError : error :=
  {| err_name := "SecurityError"; err_message := "The operation is insecure.";
     err_response_status := None |}.

Definition QuotaExceededError : error :=
  {| err_name := "QuotaExceededError"; err_message := "The quota has been exceeded.";
     err_response_status := None |}.

Definition getItem (ls : Storage) (k : string) : outcome (option string) :=
  if denied ls then Throw SecurityError else Return (items ls !! k).

Definition setItem (ls : Storage) (k v : string) : outcome Storage :=
  if denied ls then Throw SecurityError
  else if N.leb (used (<[k := v]> (items ls))) (capacity ls)
  then Return {| items := <[k := v]> (items ls); capacity := capacity ls;
                 denied := denied ls |}
  else Throw QuotaExceededError.

End WebStorage.

(* ===================================================================== *)
(** * [src/components/QueryForm.tsx]                                      *)
(* ===================================================================== *)

Module QueryForm.
Import Text Js.

Record Props := {
  ready : option bool;
  disabled : option bool }.

Record state := {
  question : string;
  loading : bool;
  error_text : option string }.

(** [typeof disabledProp === "boolean" ? !disabledProp : !!ready] *)
Definition parentReady (p : Props) : bool :=
  match disabled p with
  | Some b => negb b
  | None => match ready p with Some b => b | None => false end
  end.

(** [isIndexed] comes from the progress hook. *)
Definition canAsk (p : Props) (isIndexed : bool) : bool := parentReady p || isIndexed.


(** [ask]: the new state, the question handed to [onAsk] if it was called,
    and how the call ended. [onAsk] is how the parent's handler ends. *)
Definition ask (p : Props) (isIndexed : bool) (onAsk : string -> outcome unit) (s : state)
  : outcome unit * state * option string :=
  let q := js_trim (question s) in
  if q =? "" then (Return tt, s, None)
  else if negb (canAsk p isIndexed) then
    (Return tt,
     {| question := question s; loading := loading s;
        error_text := Some "Repository is not ready yet." |},
     None)
  else
    match onAsk q with
    | Return _ =>
        (Return tt, {| question := ""; loading := false; error_text := None |}, Some q)
    | Throw e =>
        (Throw e, {| question := question s; loading := false; error_text := None |}, Some q)
    end.

End QueryForm.

(* ===================================================================== *)
(** * [src/pages/ChatPage.tsx]                                            *)
(* ===================================================================== *)

Module ChatPage.
Import Text Js Effects WebStorage Conversations.

Inductive Role := User | Assistant.

(** A context item is whatever the server sent; the page never looks
    inside one. *)
Definition ContextItem := json.

Record ChatMessage := {
  chat_id : string;
  chat_content : string;
  chat_role : Role;
  chat_created_at : json;
  chat_contexts : option (list ContextItem) }.

Record RepoStats := { stats_documents : option Z }.

Record RepoStatus := {
  status_repoId : string;
  status_status : string;
  status_stats : option RepoStats }.

(** [(s?.status || "").toLowerCase()] *)
Definition status_label (s : option RepoStatus) : string :=
  lower (match s with Some x => status_status x | None => "" end).

(** [Number(s?.stats?.documents || 0)] *)
Definition status_docs (s : option RepoStatus) : Z :=
  match s with
  | Some x =>
      match status_stats x with
      | Some t => match stats_documents t with Some n => n | None => 0%Z end
      | None => 0%Z
      end
  | None => 0%Z
  end.

(** [label === "indexed" || label === "done" || docs > 0] *)
Definition status_ready (s : option RepoStatus) : bool :=
  (status_label s =? "indexed") || (status_label s =? "done") || (0 <? status_docs s)%Z.

Record state := {
  repoId : option string;
  conversationId : option string;
  chatHistory : list ChatMessage;
  isAsking : bool;
  repoStatus : option RepoStatus;
  manuallyReady : bool;
  newRepoMode : bool;
  reloadKey : Z;
  ctxByMessage : json }.

Definition is_assistant (m : ChatMessage) : bool :=
  match chat_role m with Assistant => true | User => false end.

Definition hasAssistantHistory (st : state) : bool := existsb is_assistant (chatHistory st).

Definition isRepoReady (st : state) : bool :=
  manuallyReady st || hasAssistantHistory st || status_ready (repoStatus st).

(** What the page asks of the outside. *)
Inductive call :=
| GetRepoStatus (repo : string)
| ToastError (msg : string)
| CreateConversation (repo : string)
| Navigate (path : string)
| CreateMessage (conversation : string) (role : Role) (content : string)
| AskAnswer (repo query conversation : string) (user : option string) (client_query_id : string)
| ConsoleError (label : string) (e : error).

Record Answer := {
  answer : string;
  contexts : option (list ContextItem) }.

(** How each request of one [handleAsk] ends, and what the clock and the
    random sources give while it runs. *)
Record replies := {
  reply_status : outcome (option RepoStatus);
  reply_conversation : outcome response;
  reply_user_message : outcome response;
  reply_answer : outcome Answer;
  reply_assistant_message : outcome response;
  randomUUID : option string;
  random_suffix : string;
  now : Z;
  now_iso : string }.

Record world := {
  page : state;
  storage : Storage;
  calls : list call }.

(** The world a handler starts in: nothing asked of the outside yet. *)
Definition fresh (st : state) (ls : Storage) : world :=
  {| page := st; storage := ls; calls := [] |}.

Definition set_page (f : state -> state) : M world unit :=
  modify (fun w => {| page := f (page w); storage := storage w; calls := calls w |}).

Definition emit (c : call) : M world unit :=
  modify (fun w => {| page := page w; storage := storage w; calls := calls w ++ [c] |}).

Definition setChatHistory (f : list ChatMessage -> list ChatMessage) : M world unit :=
  set_page (fun s =>
    {| repoId := repoId s; conversationId := conversationId s;
       chatHistory := f (chatHistory s); isAsking := isAsking s;
       repoStatus := repoStatus s; manuallyReady := manuallyReady s;
       newRepoMode := newRepoMode s; reloadKey := reloadKey s;
       ctxByMessage := ctxByMessage s |}).

Definition setIsAsking (b : bool) : M world unit :=
  set_page (fun s =>
    {| repoId := repoId s; conversationId := conversationId s;
       chatHistory := chatHistory s; isAsking := b;
       repoStatus := repoStatus s; manuallyReady := manuallyReady s;
       newRepoMode := newRepoMode s; reloadKey := reloadKey s;
       ctxByMessage := ctxByMessage s |}).

Definition setRepoStatus (f : option RepoStatus -> option RepoStatus) : M world unit :=
  set_page (fun s =>
    {| repoId := repoId s; conversationId := conversationId s;
       chatHistory := chatHistory s; isAsking := isAsking s;
       repoStatus := f (repoStatus s); manuallyReady := manuallyReady s;
       newRepoMode := newRepoMode s; reloadKey := reloadKey s;
       ctxByMessage := ctxByMessage s |}).

Definition setManuallyReady (b : bool) : M world unit :=
  set_page (fun s =>
    {| repoId := repoId s; conversationId := conversationId s;
       chatHistory := chatHistory s; isAsking := isAsking s;
       repoStatus := repoStatus s; manuallyReady := b;
       newRepoMode := newRepoMode s; reloadKey := reloadKey s;
       ctxByMessage := ctxByMessage s |}).

Definition setNewRepoMode (b : bool) : M world unit :=
  set_page (fun s =>
    {| repoId := repoId s; conversationId := conversationId s;
       chatHistory := chatHistory s; isAsking := isAsking s;
       repoStatus := repoStatus s; manuallyReady := manuallyReady s;
       newRepoMode := b; reloadKey := reloadKey s;
       ctxByMessage := ctxByMessage s |}).

Definition bumpReloadKey : M world unit :=
  set_page (fun s =>
    {| repoId := repoId s; conversationId := conversationId s;
       chatHistory := chatHistory s; isAsking := isAsking s;
       repoStatus := repoStatus s; manuallyReady := manuallyReady s;
       newRepoMode := newRepoMode s; reloadKey := (reloadKey s + 1)%Z;
       ctxByMessage := ctxByMessage s |}).

Definition setCtxByMessage (m : json) : M world unit :=
  set_page (fun s =>
    {| repoId := repoId s; conversationId := conversationId s;
       chatHistory := chatHistory s; isAsking := isAsking s;
       repoStatus := repoStatus s; manuallyReady := manuallyReady s;
       newRepoMode := newRepoMode s; reloadKey := reloadKey s;
       ctxByMessage := m |}).

(** A string is falsy when it is missing or empty. *)
Definition present (x : option string) : option string :=
  match x with
  | Some s => if s =? "" then None else Some s
  | None => None
  end.

(** [String(v)] with [undefined] among the values. *)
Definition String_of (v : value) : string :=
  match v with
  | Some j => to_string j
  | None => "undefined"
  end.

(** What [createMessage] of [src/api/conversations.ts] returns: [null] for
    a falsy body, otherwise the row's fields ([role] and [content] are
    handed on as they came). *)
Record SavedMessage := {
  saved_id : string;
  saved_role : value;
  saved_content : value;
  saved_created_at : json }.

Definition createMessage (reply : outcome response) (iso : string)
  : outcome (option SavedMessage) :=
  match reply with
  | Return res =>
      let row := data res in
      if truthy row then
        Return (Some {| saved_id := String_of (get row "id");
                        saved_role := get row "role";
                        saved_content := get row "content";
                        saved_created_at :=
                          or_null (get row "created_at" ?? get row "createdAt"
                                     ?? Some (JStr iso)) |})
      else Return None
  | Throw e => Throw e
  end.

(** ** The context cache *)

Section ContextCache.

(** [JSON.stringify] on JSON values and [JSON.parse] ([None] when it throws
    a [SyntaxError]) belong to the platform. *)
Variable JSON_stringify : json -> string.
Variable JSON_parse : string -> option json.

Definition ctxKey (cid : string) : string := String.append "ctxcache:" cid.

Definition empty_object : json := JObj ∅.

Definition readCtxCache (ls : Storage) (cid : string) : json :=
  match getItem ls (ctxKey cid) with
  | Throw _ => empty_object
  | Return raw =>
      match present raw with
      | None => empty_object
      | Some text =>
          match JSON_parse text with
          | None => empty_object
          | Some obj =>
              match obj with
              | JObj _ | JArr _ => obj
              | _ => empty_object
              end
          end
      end
  end.

Definition writeCtxCache (ls : Storage) (cid : string) (map : json) : Storage :=
  match setItem ls (ctxKey cid) (JSON_stringify map) with
  | Return ls' => ls'
  | Throw _ => ls
  end.

(** The own enumerable properties a spread copies: those of an object, the
    indexed elements of an array, nothing of a primitive other than a
    string (strings do not occur here). *)
Definition own_properties (v : json) : gmap string json :=
  match v with
  | JObj o => o
  | JArr l => list_to_map (imap (fun i x => (decimal (Z.of_nat i), x)) l)
  | _ => ∅
  end.

(** [{ ...base, ...add }] *)
Definition spread (base add : json) : json :=
  JObj (own_properties add ∪ own_properties base).

Definition mergeCtxCache (ls : Storage) (cid : string) (add : json) : json * Storage :=
  let base := readCtxCache ls cid in
  let merged := spread base add in
  (merged, writeCtxCache ls cid merged).

(** ** Asking a question *)

Definition ensureConversation (env : replies) (rid : string) : M world string :=
  let* w := read in
  match present (conversationId (page w)) with
  | Some c => ret c
  | None =>
      let* _ := emit (CreateConversation rid) in
      let* conv := await (createConversation (reply_conversation env)) in
      match present (option_map convo_id conv) with
      | None => throw (Error "create conversation failed")
      | Some c =>
          let* _ := setNewRepoMode false in
          let* _ := emit (Navigate (String.append "/conversation/" c)) in
          let* _ := bumpReloadKey in
          ret c
      end
  end.

Definition default_status (repo : string) : RepoStatus :=
  {| status_repoId := repo; status_status := "indexed";
     status_stats := Some {| stats_documents := Some 1%Z |} |}.

(** The body of the [try] of [handleAsk]. *)
Definition ask_body (env : replies) (user_id : option string) (repo question : string)
  : M world unit :=
  let* convId := ensureConversation env repo in
  let clientQueryId :=
    match present (randomUUID env) with
    | Some u => u
    | None => String.append (decimal (now env)) (String.append "-" (random_suffix env))
    end in
  let tempId := String.append "temp-" (decimal (now env)) in
  let userMsg :=
    {| chat_id := tempId; chat_content := question; chat_role := User;
       chat_created_at := JStr (now_iso env); chat_contexts := None |} in
  let* _ := setChatHistory (fun h => h ++ [userMsg]) in
  let* _ := emit (CreateMessage convId User question) in
  let* _ := await (createMessage (reply_user_message env) (now_iso env)) in
  let* _ := emit (AskAnswer repo question convId user_id clientQueryId) in
  let* a := await (reply_answer env) in
  let* _ := emit (CreateMessage convId Assistant (answer a)) in
  let* savedA := await (createMessage (reply_assistant_message env) (now_iso env)) in
  let assistantMsg :=
    {| chat_id :=
         match savedA with
         | Some m => saved_id m
         | None => String.append "a-" (decimal (now env))
         end;
       chat_content := answer a;
       chat_role := Assistant;
       chat_created_at :=
         match savedA with
         | Some m => or_null (Some (saved_created_at m) ?? Some (JStr (now_iso env)))
         | None => JStr (now_iso env)
         end;
       chat_contexts := Some (default [] (contexts a)) |} in
  let* _ := setChatHistory (fun h =>
              List.filter (fun m => negb (chat_id m =? tempId)) h ++ [userMsg; assistantMsg]) in
  let* _ :=
    match default [] (contexts a) with
    | [] => ret tt
    | items =>
        if convId =? "" then ret tt
        else
          let* w := read in
          let '(merged, ls') :=
            mergeCtxCache (storage w) convId (JObj {[ chat_id assistantMsg := JArr items ]}) in
          let* _ := modify (fun w => {| page := page w; storage := ls'; calls := calls w |}) in
          setCtxByMessage merged
    end in
  let* _ := setManuallyReady true in
  let* _ := setRepoStatus (fun prev =>
              match prev with
              | Some s => Some s
              | None => Some (default_status repo)
              end) in
  bumpReloadKey.

(** The readiness gate of [handleAsk]: [true] lets the ask through. *)
Definition refresh_gate (env : replies) (repo : string) : M world bool :=
  try_catch
    (let* _ := emit (GetRepoStatus repo) in
     let* s := await (reply_status env) in
     match s with
     | Some s =>
         let* _ := setRepoStatus (fun _ => Some s) in
         if status_ready (Some s) then ret true
         else
           let* _ := emit (ToastError "Repository is not indexed yet.") in
           ret false
     | None =>
         let* _ := emit (ToastError "Repository is not ready yet.") in
         ret false
     end)
    (fun _ =>
       let* _ := emit (ToastError "Repository is not ready yet.") in
       ret false).

Definition handleAsk (env : replies) (user_id : option string) (question : string)
  : M world unit :=
  let* w := read in
  match present (repoId (page w)) with
  | None => ret tt
  | Some repo =>
      if isAsking (page w) then ret tt
      else
        let* go := (if isRepoReady (page w) then ret true else refresh_gate env repo) in
        if go then
          let* _ := setIsAsking true in
          try_finally
            (try_catch (ask_body env user_id repo question)
                       (fun e => emit (ConsoleError "Ask error:" e)))
            (setIsAsking false)
        else ret tt
  end.

End ContextCache.

End ChatPage.

(* ===================================================================== *)
(** * [src/components/Sidebar.tsx]: deleting a repository                 *)
(* ===================================================================== *)

Module Sidebar.
Import Text Js Repos.

Record state := {
  repoDeletingId : option string;
  hiddenRepoIds : gset string;
  briefs : gmap string RepoBrief }.

Inductive notice :=
| ToastSuccess (msg : string)
| ToastError (msg : string)
| OnRepoDeleted (repo : string)
| DispatchRepoDeleted (repo : string).

(** [err?.message || fallback] *)
Definition message_or (e : error) (fallback : string) : string :=
  if err_message e =? "" then fallback else err_message e.

(** [handleDeleteRepo]: [reply] is how [DELETE /repos/:id] ends. *)
Definition handleDeleteRepo (repo : string) (reply : outcome response) (s : state)
  : state * list notice :=
  let failed (e : error) :=
    ({| repoDeletingId := None; hiddenRepoIds := hiddenRepoIds s; briefs := briefs s |},
     [ToastError (message_or e "Couldn’t delete repository")]) in
  match deleteRepo reply with
  | Return true =>
      ({| repoDeletingId := None;
          hiddenRepoIds := hiddenRepoIds s ∪ {[ repo ]};
          briefs := delete repo (briefs s) |},
       [OnRepoDeleted repo; DispatchRepoDeleted repo; ToastSuccess "Repository deleted"])
  | Return false => failed (Error "Failed to delete repository")
  | Throw e => failed e
  end.

End Sidebar.

(* ===================================================================== *)
(** * Scenarios                                                           *)
(* ===================================================================== *)

(** Concrete rows and scripts used by the examples further down. *)

Module Scenario.
Import Schema.

Definition new_r1 : repo_new :=
  {| new_id := Some "r1"; new_owner_user_id := None;
     new_source_type := Some "git";
     new_source_uri := Some "https://github.com/AILab-FOI/bytesophos.git";
     new_storage_path := Some "/data/repos/r1"; new_name := None |}.

(** An uploaded archive: no source locator, no name. *)
Definition new_upload : repo_new :=
  {| new_id := Some "R2"; new_owner_user_id := None;
     new_source_type := Some "upload"; new_source_uri := None;
     new_storage_path := Some "/data/uploads/MyRepo.zip"; new_name := None |}.

Definition doc1 : document :=
  {| document_id := 1%N; doc_repo_id := "r1"; doc_version := 1%Z;
     doc_checksum := Some "sha-a"; doc_ingestion_status := "ingested" |}.

(** A chunk of [doc1] at index 0 with hash ["h0"], under the key [k]. *)
Definition chunk0 (k : uuid) : document_chunk :=
  {| chunk_id := k; chunk_document_id := Some 1%N; chunk_text := "def f(): pass";
     chunk_hash := "h0"; chunk_index := 0%Z;
     chunk_start_offset := Some 0%Z; chunk_end_offset := Some 13%Z;
     chunk_embedding := None; chunk_embedding_model := None |}.

(** The same chunk once the embedding phase has stored a vector, without
    a model name. *)
Definition chunk0_embedded (k : uuid) : document_chunk :=
  {| chunk_id := k; chunk_document_id := Some 1%N; chunk_text := "def f(): pass";
     chunk_hash := "h0"; chunk_index := 0%Z;
     chunk_start_offset := Some 0%Z; chunk_end_offset := Some 13%Z;
     chunk_embedding := Some (repeat 0%Z 1536); chunk_embedding_model := None |}.

(** A question asked outside any conversation. *)
Definition query7 : rag_query :=
  {| query_id := 7%N; query_conversation_id := None; query_user_id := None;
     query_text := "what does f do?"; query_response_text := Some "nothing" |}.

(** An audit row of [query7] for chunk [c], used in the prompt. *)
Definition audit (k c : uuid) (rank : option Z) : retrieved_chunk :=
  {| retrieved_id := k; rc_rag_query_id := Some 7%N; rc_document_chunk_id := Some c;
     rc_score := None; rc_rank := rank; rc_used_in_prompt := true |}.

Definition ingest : list statement :=
  [ InsertRepo new_r1; InsertDocument doc1;
    InsertDocumentChunk (chunk0 2%N); InsertDocumentChunk (chunk0 3%N) ].

Definition embed : list statement :=
  ingest ++ [ UpdateDocumentChunk (chunk0_embedded 2%N) ].

Definition answer_once : list statement :=
  ingest ++ [ InsertRagQuery query7;
              InsertRetrievedChunk (audit 9%N 2%N (Some 2%Z));
              InsertRetrievedChunk (audit 10%N 3%N (Some 2%Z)) ].


(** The store a script leaves (the empty store if it fails). *)
Definition after (script : list statement) : db :=
  match run script empty_db with
  | Some d => d
  | None => empty_db
  end.

End Scenario.

Module ClientScenario.
Import Js Repos.



(** What the HTTP client throws for a request answered with status 404. *)
Definition not_found : error :=
  {| err_name := "AxiosError"; err_message := "Request failed with status code 404";
     err_response_status := Some 404%Z |}.


Definition deleted_reply : response :=
  {| data := Some (JObj (<["status" := JStr "deleted"]> (<["repoId" := JStr "r1"]> ∅))) |}.





End ClientScenario.

Module PageScenario.
Import Js WebStorage ChatPage.

(** A context map for one assistant message. *)
Definition contexts_m1 : gmap string json :=
  {[ "m1" := JArr [JObj (<["id" := JStr "c1"]> (<["filename" := JStr "a.py"]> ∅))] ]}.

(** A storage area with room, one with none, one that may not be used. *)
Definition roomy : Storage := {| items := ∅; capacity := 5000000%N; denied := false |}.
Definition full : Storage := {| items := ∅; capacity := 0%N; denied := false |}.
Definition blocked : Storage := {| items := ∅; capacity := 5000000%N; denied := true |}.

Definition indexing_status : RepoStatus :=
  {| status_repoId := "r1"; status_status := "indexing";
     status_stats := Some {| stats_documents := Some 0%Z |} |}.

(** The page on repository "r1", still indexing, nothing asked so far. *)
Definition waiting : state :=
  {| repoId := Some "r1"; conversationId := Some "c1"; chatHistory := [];
     isAsking := false; repoStatus := Some indexing_status;
     manuallyReady := false; newRepoMode := false; reloadKey := 0%Z;
     ctxByMessage := JObj ∅ |}.

(** The same page while an earlier ask is still under way. *)
Definition busy : state :=
  {| repoId := Some "r1"; conversationId := Some "c1"; chatHistory := [];
     isAsking := true; repoStatus := Some indexing_status;
     manuallyReady := false; newRepoMode := false; reloadKey := 0%Z;
     ctxByMessage := JObj ∅ |}.

Definition no_reply : outcome response := Throw (Error "Network Error").

(** An environment in which the status read fails, and one in which it
    says the repository is still indexing. *)
Definition status_fails : replies :=
  {| reply_status := Throw (Error "Network Error");
     reply_conversation := no_reply; reply_user_message := no_reply;
     reply_answer := Throw (Error "Network Error");
     reply_assistant_message := no_reply;
     randomUUID := Some "u-1"; random_suffix := "k3"; now := 1700000000000%Z;
     now_iso := "2023-11-14T22:13:20.000Z" |}.

Definition status_indexing : replies :=
  {| reply_status := Return (Some indexing_status);
     reply_conversation := no_reply; reply_user_message := no_reply;
     reply_answer := Throw (Error "Network Error");
     reply_assistant_message := no_reply;
     randomUUID := Some "u-1"; random_suffix := "k3"; now := 1700000000000%Z;
     now_iso := "2023-11-14T22:13:20.000Z" |}.

Definition start (st : state) : world :=
  {| page := st; storage := roomy; calls := [] |}.

End PageScenario.

(* ===================================================================== *)
(** * The uniqueness constraints besides the primary keys                 *)
(* ===================================================================== *)

Module Constraints.
Import Schema.

(** [users.email text UNIQUE NOT NULL] *)
Definition emails_unique (d : db) : Prop := NoDup (user_email <$> users d).

(** [CREATE UNIQUE INDEX ux_repos_owner_name ON repos(owner_user_id, name)]:
    two rows with the same owner, not [NULL], and the same name are one
    row. *)
Definition owner_names_unique (d : db) : Prop :=
  forall r1 r2,
    r1 ∈ repos d -> r2 ∈ repos d ->
    is_Some (repo_owner_user_id r1) ->
    repo_owner_user_id r1 = repo_owner_user_id r2 ->
    repo_name r1 = repo_name r2 ->
    r1 = r2.

End Constraints.

(** Rows and scripts for the examples on deletes and owners. *)

Module StoreScenario.
Import Schema.

Definition alice : user := {| user_id := 1%N; user_email := "alice@example.com" |}.

(** A repository of [alice] for which a name is supplied. *)
Definition new_owned (id name : string) : repo_new :=
  {| new_id := Some id; new_owner_user_id := Some 1%N;
     new_source_type := Some "upload"; new_source_uri := None;
     new_storage_path := Some "/data/uploads/a.zip"; new_name := Some name |}.

Definition conv5 : conversation :=
  {| conversation_id := 5%N; conv_repo_id := "r1"; conv_user_id := None |}.

Definition msg6 : message :=
  {| message_id := 6%N; msg_conversation_id := Some 5%N; msg_user_id := None;
     msg_content := "what does f do?"; msg_role := "user" |}.

(** A question asked in [conv5], and its audit row for chunk 2. *)
Definition query8 : rag_query :=
  {| query_id := 8%N; query_conversation_id := Some 5%N; query_user_id := None;
     query_text := "what does f do?"; query_response_text := None |}.

Definition audit8 : retrieved_chunk :=
  {| retrieved_id := 11%N; rc_rag_query_id := Some 8%N; rc_document_chunk_id := Some 2%N;
     rc_score := None; rc_rank := Some 1%Z; rc_used_in_prompt := true |}.

(** A chat in a conversation of the repository: everything the chat left
    hangs off the conversation. *)
Definition chat : list statement :=
  Scenario.ingest ++ [ InsertConversation conv5; InsertMessage msg6;
                       InsertRagQuery query8; InsertRetrievedChunk audit8 ].

Definition owned : list statement :=
  [ InsertUser alice; InsertRepo (new_owned "a1" "tools");
    InsertRepo (new_owned "a2" "docs") ].

End StoreScenario.

(* ===================================================================== *)
(** * [src/pages/ChatPage.tsx]: what the page shows, and its other handlers *)
(* ===================================================================== *)

Module ChatView.
Import Text Js Effects WebStorage Conversations ChatPage.

(** [showUploadForm] *)
Definition showUploadForm (st : state) : bool :=
  if newRepoMode st then true
  else
    match present (repoId st) with
    | None => true
    | Some _ =>
        match present (conversationId st), chatHistory st with
        | None, [] =>
            let label := status_label (repoStatus st) in
            let docs := status_docs (repoStatus st) in
            let terminal :=
              (label =? "indexed") || (label =? "done") || (label =? "error")
              || (0 <? docs)%Z in
            negb terminal
        | _, _ => false
        end
    end.

(** [showIndexingNotice] *)
Definition showIndexingNotice (st : state) : bool :=
  match repoStatus st with
  | None => false
  | Some s =>
      let label := status_label (Some s) in
      let docs := status_docs (Some s) in
      if (0 <? docs)%Z then false
      else ((label =? "indexing") || (label =? "upload")) && negb (isAsking st)
  end.


(** [onNewRepo] *)
Definition onNewRepo (st : state) : state :=
  {| repoId := None; conversationId := None; chatHistory := [];
     isAsking := isAsking st; repoStatus := None; manuallyReady := false;
     newRepoMode := true; reloadKey := reloadKey st; ctxByMessage := JObj ∅ |}.


(** A call that neither reads the repository status nor raises a notice. *)
Definition quiet (c : call) : Prop :=
  match c with
  | GetRepoStatus _ | ToastError _ => False
  | _ => True
  end.

End ChatView.

(** Pages and replies for the examples on asking. *)

Module AskScenario.
Import Js WebStorage ChatPage.

Definition indexed_status : RepoStatus :=
  {| status_repoId := "r1"; status_status := "indexed";
     status_stats := Some {| stats_documents := Some 3%Z |} |}.

(** The page on repository "r1", indexed, in conversation "c1". *)
Definition ready : state :=
  {| repoId := Some "r1"; conversationId := Some "c1"; chatHistory := [];
     isAsking := false; repoStatus := Some indexed_status;
     manuallyReady := true; newRepoMode := false; reloadKey := 0%Z;
     ctxByMessage := JObj ∅ |}.

(** The same page before any conversation was opened. *)
Definition ready_no_conversation : state :=
  {| repoId := Some "r1"; conversationId := None; chatHistory := [];
     isAsking := false; repoStatus := Some indexed_status;
     manuallyReady := true; newRepoMode := false; reloadKey := 0%Z;
     ctxByMessage := JObj ∅ |}.

Definition saved (id : string) : outcome response :=
  Return {| data := Some (JObj (<["id" := JStr id]> ∅)) |}.

(** Every request is answered; the answer carries no contexts. *)
Definition all_answered : replies :=
  {| reply_status := Return (Some indexed_status);
     reply_conversation :=
       Return {| data := Some (JObj (<["id" := JStr "c2"]> (<["repo_id" := JStr "r1"]> ∅))) |};
     reply_user_message := saved "m1";
     reply_answer := Return {| answer := "f does nothing"; contexts := None |};
     reply_assistant_message := saved "m2";
     randomUUID := Some "u-1"; random_suffix := "k3"; now := 1700000000000%Z;
     now_iso := "2023-11-14T22:13:20.000Z" |}.


(** The page on repository "r1" while it is being indexed, nobody asking. *)
Definition indexing : state :=
  {| repoId := Some "r1"; conversationId := None; chatHistory := [];
     isAsking := false; repoStatus := Some PageScenario.indexing_status;
     manuallyReady := false; newRepoMode := false; reloadKey := 0%Z;
     ctxByMessage := JObj ∅ |}.

End AskScenario.

(* ===================================================================== *)
(** * Facts about text                                                    *)
(* ===================================================================== *)

Module TextFacts.
Import Text.

Lemma chars_text l : chars (text l) = l.
Proof. apply list_ascii_of_string_of_list_ascii. Qed.


Lemma text_nil_iff l : text l = "" <-> l = [].
Proof.
  split; [|intros ->; reflexivity].
  destruct l; [reflexivity|discriminate].
Qed.

Lemma chars_nil_iff s : chars s = [] <-> s = "".
Proof.
  split; [|intros ->; reflexivity].
  destruct s; [reflexivity|discriminate].
Qed.

Lemma lower_chars_nil_iff l : lower_chars l = [] <-> l = [].
Proof. destruct l; simpl; split; congruence. Qed.

Lemma lower_empty_iff s : lower s = "" <-> s = "".
Proof.
  unfold lower. rewrite text_nil_iff, lower_chars_nil_iff. apply chars_nil_iff.
Qed.

Lemma eqb_empty_false s : (s =? "") = false <-> s <> "".
Proof.
  split.
  - intros H ->. discriminate.
  - intros H. destruct (String.eqb_spec s ""); congruence.
Qed.

Lemma starts_with_app pre l : starts_with pre (pre ++ l) = true.
Proof.
  induction pre as [|a pre IH]; [reflexivity|].
  simpl. rewrite Ascii.eqb_refl. exact IH.
Qed.

Lemma starts_with_split pre l :
  starts_with pre l = true -> exists r, l = pre ++ r.
Proof.
  revert l. induction pre as [|a pre IH]; intros l H.
  - exists l. reflexivity.
  - destruct l as [|b l]; [discriminate|].
    simpl in H. apply andb_prop in H as [Hab Hr].
    apply Ascii.eqb_eq in Hab as ->.
    destruct (IH _ Hr) as [r ->]. exists r. reflexivity.
Qed.

Lemma occurs_nonempty needle l :
  needle <> [] -> occurs needle l = true -> l <> [].
Proof.
  intros Hn H ->. simpl in H. destruct needle; [congruence|discriminate].
Qed.

Lemma drop_while_forall p l : forallb p l = true -> drop_while p l = [].
Proof.
  induction l as [|c r IH]; [reflexivity|].
  simpl. intros H. apply andb_prop in H as [-> Hr]. auto.
Qed.

Lemma drop_while_head p l c r : drop_while p l = c :: r -> p c = false.
Proof.
  induction l as [|a l IH]; simpl; [discriminate|].
  destruct (p a) eqn:E; [exact IH|].
  intros [= <- _]. exact E.
Qed.

Lemma drop_last_length n l : List.length (drop_last n l) = List.length l - n.
Proof. unfold drop_last. rewrite length_firstn. lia. Qed.

Lemma drop_last_nonempty n l : n < List.length l -> drop_last n l <> [].
Proof.
  intros H E. apply (f_equal (@List.length ascii)) in E.
  rewrite drop_last_length in E. simpl in E. lia.
Qed.

Lemma trim_both_nil p : trim_both p [] = [].
Proof. reflexivity. Qed.

Lemma btrim_empty : btrim "" = "".
Proof. reflexivity. Qed.

(** A text that is not blank is not empty. *)
Lemma btrim_nonblank s : btrim s <> "" -> s <> "".
Proof. intros H ->. apply H. reflexivity. Qed.

End TextFacts.

(* ===================================================================== *)
(** * Facts about [derive_repo_name]                                      *)
(* ===================================================================== *)

Module RepoNameFacts.
Import Text TextFacts RepoName.

Lemma strip_dot_git_nonempty b : b <> [] -> strip_dot_git b <> [].
Proof.
  intros Hb. unfold strip_dot_git.
  destruct (ends_with (chars ".git") b && Nat.ltb 4 (List.length b)) eqn:E; [|exact Hb].
  apply andb_prop in E as [_ Hlen]. apply Nat.ltb_lt in Hlen.
  now apply drop_last_nonempty.
Qed.

Lemma tail_group_nonempty r g : tail_group r = Some g -> g <> [].
Proof.
  unfold tail_group. destruct (strip_slash r) as [|c body] eqn:E; [discriminate|].
  destruct (forallb _ _); [|discriminate].
  intros [= <-]. now apply strip_dot_git_nonempty.
Qed.

Lemma github_group_nonempty l g : github_group l = Some g -> g <> [].
Proof.
  revert g. induction l as [|c r IH]; intros g; simpl; [discriminate|].
  destruct (github_group r) as [g'|].
  - intros [= <-]. now apply IH.
  - destruct (is_slash c || is_colon c); [|discriminate].
    apply tail_group_nonempty.
Qed.

Lemma matches_github_nonempty s : matches_github s = true -> s <> "".
Proof.
  unfold matches_github. intros H E. subst s. discriminate H.
Qed.

Lemma regexp_replace_segment_nonempty s :
  matches_github s = true -> regexp_replace_segment s <> "".
Proof.
  intros H. unfold regexp_replace_segment.
  destruct (github_group (chars s)) as [g|] eqn:E.
  - rewrite text_nil_iff. now apply github_group_nonempty in E.
  - now apply matches_github_nonempty.
Qed.

Lemma coalesce_nullif_nonempty x d :
  d <> "" -> coalesce (nullif x "") d <> "".
Proof.
  intros Hd. destruct x as [v|]; simpl; [|exact Hd].
  destruct (String.eqb_spec v ""); simpl; congruence.
Qed.

(** The derived name is never empty. *)
Lemma derive_repo_name_nonempty s p f : derive_repo_name s p f <> "".
Proof.
  unfold derive_repo_name.
  set (s' := coalesce (nullif (option_map btrim s) "") "").
  set (p' := coalesce (nullif (option_map btrim p) "") "").
  assert (Hf : lower (coalesce (nullif (option_map btrim f) "") "repo") <> "").
  { rewrite lower_empty_iff. now apply coalesce_nullif_nonempty. }
  destruct (matches_github s') eqn:Hg.
  - rewrite lower_empty_iff. now apply regexp_replace_segment_nonempty.
  - destruct (negb (p' =? "")); [|exact Hf].
    destruct (negb (regexp_replace_archive (regexp_replace_dirs p') =? "")) eqn:Hb;
      [|exact Hf].
    rewrite lower_empty_iff. apply negb_true_iff in Hb. now apply eqb_empty_false.
Qed.


Lemma after_last_slash_none l :
  forallb (fun c => negb (is_slash c)) l = true -> after_last_slash l = None.
Proof.
  induction l as [|c r IH]; [reflexivity|].
  simpl. intros H. apply andb_prop in H as [Hc Hr].
  rewrite (IH Hr). apply negb_true_iff in Hc. now rewrite Hc.
Qed.


Lemma regexp_replace_dirs_plain p :
  forallb (fun c => negb (is_slash c)) (chars p) = true ->
  regexp_replace_dirs p = p.
Proof.
  intros H. unfold regexp_replace_dirs. now rewrite after_last_slash_none.
Qed.


End RepoNameFacts.

(* ===================================================================== *)
(** * Facts about the store                                               *)
(* ===================================================================== *)

Module SchemaFacts.
Import Text TextFacts RepoName RepoNameFacts Schema.

(** ** Lists of rows *)

Section Rows.
Context {A K : Type} (f : A -> K).

Lemma elem_of_fmap_filter (P : A -> Prop) `{!forall x, Decision (P x)} (l : list A) k :
  k ∈ f <$> filter P l -> k ∈ f <$> l.
Proof.
  rewrite !list_elem_of_fmap. intros (x & -> & Hx).
  apply list_elem_of_filter in Hx as [_ Hx]. eauto.
Qed.

Lemma NoDup_fmap_filter (P : A -> Prop) `{!forall x, Decision (P x)} (l : list A) :
  NoDup (f <$> l) -> NoDup (f <$> filter P l).
Proof.
  induction l as [|x l IH]; [intros; constructor|].
  rewrite fmap_cons, NoDup_cons. intros [Hx Hl].
  rewrite filter_cons. destruct (decide (P x)); [|auto].
  rewrite fmap_cons, NoDup_cons. split; [|auto].
  intros Hin. apply Hx. now apply elem_of_fmap_filter in Hin.
Qed.

Context `{EqDecision K}.

(** Replacing the row that carries a key keeps keys apart. *)
Lemma NoDup_replace (x : A) (l : list A) :
  NoDup (f <$> l) -> NoDup (f <$> (x :: filter (fun y => f y <> f x) l)).
Proof.
  intros H. rewrite fmap_cons, NoDup_cons. split.
  - rewrite list_elem_of_fmap. intros (y & Hy & Hin).
    apply list_elem_of_filter in Hin as [Hne _]. congruence.
  - now apply NoDup_fmap_filter.
Qed.

Lemma replace_keys (x : A) (l : list A) k :
  f x ∈ f <$> l ->
  k ∈ f <$> l -> k ∈ f <$> (x :: filter (fun y => f y <> f x) l).
Proof.
  intros Hx. rewrite fmap_cons, !list_elem_of_fmap, elem_of_cons.
  intros (y & -> & Hy). destruct (decide (f y = f x)) as [E|E]; [now left|].
  right. apply list_elem_of_fmap. exists y. split; [reflexivity|].
  apply list_elem_of_filter. auto.
Qed.

End Rows.

Lemma ref_ok_mono {K} (fk : option K) (keys keys' : list K) :
  (forall k, k ∈ keys -> k ∈ keys') -> ref_ok fk keys -> ref_ok fk keys'.
Proof. destruct fk; simpl; auto. Qed.

Lemma refs_mono {A K} (fk : A -> option K) (l : list A) (keys keys' : list K) :
  (forall k, k ∈ keys -> k ∈ keys') ->
  Forall (fun x => ref_ok (fk x) keys) l -> Forall (fun x => ref_ok (fk x) keys') l.
Proof.
  intros H HF. eapply Forall_impl; [exact HF|].
  intros x. now apply ref_ok_mono.
Qed.

Lemma Forall_filter_keep {A} (Q : A -> Prop) (P : A -> Prop) `{!forall x, Decision (P x)}
    (l : list A) :
  Forall Q l -> Forall Q (filter P l).
Proof.
  rewrite !Forall_forall. intros Hall x Hx.
  apply list_elem_of_filter in Hx as [_ Hx]. auto.
Qed.

(** Children that point at removed keys go with them: what stays points
    at what stays. *)
Lemma refs_cascade {A B K} `{EqDecision K} (fk : A -> option K) (key : B -> K)
    (children : list A) (parents : list B) (gone : list K) :
  Forall (fun x => ref_ok (fk x) (key <$> parents)) children ->
  Forall (fun x => ref_ok (fk x) (key <$> filter (fun p => key p ∉ gone) parents))
         (filter (fun x => ~ ref_in (fk x) gone) children).
Proof.
  rewrite !Forall_forall. intros Hall x Hx.
  apply list_elem_of_filter in Hx as [Hout Hx]. specialize (Hall _ Hx).
  destruct (fk x) as [k|]; simpl in *; [|exact I].
  apply list_elem_of_fmap in Hall as (p & -> & Hp).
  apply list_elem_of_fmap. exists p. split; [reflexivity|].
  apply list_elem_of_filter. auto.
Qed.


(** ** Running a statement *)

Ltac open_exec :=
  repeat match goal with
    | H : None = Some _ |- _ => discriminate H
    | H : Some _ = Some _ |- _ => injection H as <-
    | H : ?lhs = Some _ |- _ =>
        match lhs with
        | context [decide ?P] => destruct (decide P)
        | context [match ?x with _ => _ end] => destruct x eqn:?
        end
    end.

Ltac keys_tac :=
  first
    [ assumption
    | apply NoDup_fmap_filter; assumption
    | apply NoDup_replace; assumption
    | apply NoDup_cons; split;
      [ assumption | first [assumption | apply NoDup_fmap_filter; assumption] ] ].

Lemma exec_keys_ok st d d' : keys_ok d -> exec st d = Some d' -> keys_ok d'.
Proof.
  intros [] Hexec.
  destruct st; simpl in Hexec;
    unfold insert_user, insert_repo, update_repo, delete_repo, insert_conversation,
      delete_conversation, insert_message, delete_message, insert_document,
      delete_document, insert_document_chunk, update_document_chunk,
      delete_document_chunk, insert_rag_query, delete_rag_query,
      insert_retrieved_chunk, update_retrieved_chunk, delete_retrieved_chunk,
      checked in Hexec;
    open_exec; try (split; simpl; keys_tac).
Qed.


(** ** The name a repository row ends up with *)

Lemma fill_name_named NEW n :
  new_name (repos_before_ins_upd_fill_name NEW) = Some n -> n <> "".
Proof.
  unfold repos_before_ins_upd_fill_name.
  destruct (new_name NEW) as [supplied|] eqn:E.
  - destruct (String.eqb_spec (btrim supplied) "") as [Hb|Hb]; simpl.
    + intros [= <-]. apply derive_repo_name_nonempty.
    + rewrite E. intros [= <-]. now apply btrim_nonblank.
  - simpl. intros [= <-]. apply derive_repo_name_nonempty.
Qed.

Lemma repo_of_new_name NEW r :
  repo_of_new NEW = Some r -> new_name NEW = Some (repo_name r).
Proof.
  unfold repo_of_new.
  destruct (new_id NEW), (new_source_type NEW), (new_storage_path NEW), (new_name NEW);
    try discriminate.
  destruct (decide _); [|discriminate]. now intros [= <-].
Qed.

Lemma find_repo_elem r (l : list repo) old :
  List.find (fun x => bool_decide (repo_id x = r)) l = Some old ->
  old ∈ l /\ repo_id old = r.
Proof.
  intros H. apply find_some in H as [Hin Hr].
  split; [now apply list_elem_of_In|]. now apply bool_decide_eq_true in Hr.
Qed.

Lemma updated_repo_named old s row :
  repo_name old <> "" ->
  repo_of_new (updated_repo_new old s) = Some row -> repo_name row <> "".
Proof.
  intros Hold Hrow. apply repo_of_new_name in Hrow.
  unfold updated_repo_new in Hrow.
  destruct (fill_name_fires s) eqn:Hf.
  - now apply fill_name_named in Hrow.
  - unfold fill_name_fires in Hf.
    destruct (set_name s); [now rewrite !orb_true_r in Hf; simpl in Hf; destruct (in_set_list (set_id s))|].
    simpl in Hrow. now injection Hrow as <-.
Qed.

Lemma exec_rows_ok st d d' : rows_ok d -> exec st d = Some d' -> rows_ok d'.
Proof.
  intros [Hnames Hdims] Hexec.
  destruct st; simpl in Hexec;
    unfold insert_user, insert_repo, update_repo, delete_repo, insert_conversation,
      delete_conversation, insert_message, delete_message, insert_document,
      delete_document, insert_document_chunk, update_document_chunk,
      delete_document_chunk, insert_rag_query, delete_rag_query,
      insert_retrieved_chunk, update_retrieved_chunk, delete_retrieved_chunk,
      checked in Hexec;
    open_exec;
    try (split; simpl;
         first [ assumption | apply Forall_filter_keep; assumption | idtac ]).
  - apply Forall_cons. split; [|assumption].
    match goal with
    | H : repo_of_new _ = Some _ |- _ =>
        apply repo_of_new_name in H; now apply fill_name_named in H
    end.
  - apply Forall_cons. split; [|now apply Forall_filter_keep].
    match goal with
    | Hf : List.find _ _ = Some ?old, H : repo_of_new _ = Some _ |- _ =>
        apply find_repo_elem in Hf as [Hin _];
        apply (updated_repo_named old _ _) in H; [exact H|]
    end.
    rewrite Forall_forall in Hnames. now apply Hnames.
  - apply Forall_cons. split; [|assumption].
    match goal with H : chunk_row_ok _ _ |- _ => apply H end.
  - apply Forall_cons. split; [|now apply Forall_filter_keep].
    match goal with H : chunk_row_ok _ _ |- _ => apply H end.
Qed.


(** ** Referential integrity *)

Lemma kept_not_selected {A K} (f : A -> K) (P : A -> Prop) `{!forall x, Decision (P x)}
    (l : list A) x :
  x ∈ l -> f x ∉ f <$> filter P l -> ~ P x.
Proof.
  intros Hx Hout HP. apply Hout, list_elem_of_fmap. exists x.
  split; [reflexivity|]. now apply list_elem_of_filter.
Qed.

(** Rows that point at one removed parent go by their keys. *)
Lemma owned_rows_cascade {A B K1 K2} `{EqDecision K1, EqDecision K2}
    (key : A -> K1) (fk : A -> K2) (pk : B -> K2) (r : K2)
    (children : list A) (parents : list B) :
  Forall (fun c => fk c ∈ pk <$> parents) children ->
  Forall (fun c => fk c ∈ pk <$> filter (fun p => pk p <> r) parents)
         (filter (fun c => key c ∉ key <$> filter (fun c => fk c = r) children) children).
Proof.
  rewrite !Forall_forall. intros Hall c Hc.
  apply list_elem_of_filter in Hc as [Hkept Hc].
  apply kept_not_selected in Hkept; [|exact Hc].
  apply Hall in Hc. apply list_elem_of_fmap in Hc as (p & Hp & Hin).
  apply list_elem_of_fmap. exists p. split; [exact Hp|].
  apply list_elem_of_filter. split; [congruence|exact Hin].
Qed.

Lemma selected_rows_cascade {A B K1 K2} `{EqDecision K1, EqDecision K2}
    (key : A -> K1) (fk : A -> option K2) (pk : B -> K2) (gone : list K2)
    (children : list A) (parents : list B) :
  Forall (fun c => ref_ok (fk c) (pk <$> parents)) children ->
  Forall (fun c => ref_ok (fk c) (pk <$> filter (fun p => pk p ∉ gone) parents))
         (filter (fun c => key c ∉ key <$> filter (fun c => ref_in (fk c) gone) children)
                 children).
Proof.
  rewrite !Forall_forall. intros Hall c Hc.
  apply list_elem_of_filter in Hc as [Hkept Hc].
  apply kept_not_selected in Hkept; [|exact Hc].
  apply Hall in Hc. destruct (fk c) as [k|]; simpl in *; [|exact I].
  apply list_elem_of_fmap in Hc as (p & Hp & Hin).
  apply list_elem_of_fmap. exists p. split; [exact Hp|].
  apply list_elem_of_filter. split; [congruence|exact Hin].
Qed.

(** The check that stands for the missing [ON DELETE] action: an audit row
    that stays refers to a chunk that stays. *)
Lemma no_action_refs old new :
  Forall (fun x => ref_ok (rc_document_chunk_id x) (chunk_id <$> document_chunks old))
         (retrieved_chunks new) ->
  no_action_ok old new ->
  Forall (fun x => ref_ok (rc_document_chunk_id x) (chunk_id <$> document_chunks new))
         (retrieved_chunks new).
Proof.
  unfold no_action_ok, chunks_removed. rewrite !Forall_forall.
  intros Hold Hno x Hx. specialize (Hold _ Hx). specialize (Hno _ Hx).
  destruct (rc_document_chunk_id x) as [k|]; simpl in *; [|exact I].
  destruct (decide (k ∈ chunk_id <$> document_chunks new)) as [|Hout]; [assumption|].
  exfalso. apply Hno. now apply list_elem_of_filter.
Qed.

Lemma elems_mono {A K} (fk : A -> K) (l : list A) (keys keys' : list K) :
  (forall k, k ∈ keys -> k ∈ keys') ->
  Forall (fun x => fk x ∈ keys) l -> Forall (fun x => fk x ∈ keys') l.
Proof. intros Hsub HF. eapply Forall_impl; [exact HF|]. intros x. apply Hsub. Qed.

(** An [UPDATE] of a repository keeps every key that is referred to. *)
Lemma updated_repo_keys d r (row : repo) k :
  ~ (repo_id row <> r /\ repo_referenced r d) ->
  k ∈ conv_repo_id <$> conversations d \/ k ∈ doc_repo_id <$> documents d ->
  k ∈ repo_id <$> repos d ->
  k ∈ repo_id row :: (repo_id <$> filter (fun x => repo_id x <> r) (repos d)).
Proof.
  intros Hguard Href Hk. apply elem_of_cons.
  destruct (decide (k = r)) as [->|Hne].
  - left. destruct (decide (repo_id row = r)) as [|Hrow]; [congruence|].
    exfalso. apply Hguard. split; [exact Hrow|exact Href].
  - right. apply list_elem_of_fmap in Hk as (x & -> & Hx).
    apply list_elem_of_fmap. exists x. split; [reflexivity|].
    now apply list_elem_of_filter.
Qed.

Lemma replaced_chunk_keys (c : document_chunk) (l : list document_chunk) k :
  chunk_id c ∈ chunk_id <$> l ->
  k ∈ chunk_id <$> l ->
  k ∈ chunk_id c :: (chunk_id <$> filter (fun x => chunk_id x <> chunk_id c) l).
Proof. intros Hc Hk. now apply (replace_keys chunk_id c l k). Qed.

Ltac grow := intros ? ?; apply elem_of_cons; now right.

Ltac fk_tac :=
  first
    [ assumption
    | apply Forall_filter_keep; assumption
    | eapply refs_mono; [|eassumption]; grow
    | eapply elems_mono; [|eassumption]; grow
    | apply owned_rows_cascade; assumption
    | apply selected_rows_cascade; assumption
    | apply refs_cascade; assumption
    | apply Forall_cons; split;
      [ first [ assumption
              | match goal with H : chunk_row_ok _ _ |- _ => apply H end
              | match goal with H : retrieved_row_ok _ _ |- _ => apply H end ]
      | first [ assumption | apply Forall_filter_keep; assumption ] ]
    | match goal with
      | H : no_action_ok ?old ?new |- _ =>
          apply (no_action_refs old new);
          [ simpl; first [assumption | apply Forall_filter_keep; assumption] | exact H ]
      end
    | eapply refs_mono; [|eassumption];
      intros ? ?; apply replaced_chunk_keys; assumption ].

Lemma exec_integrity st d d' : integrity d -> exec st d = Some d' -> integrity d'.
Proof.
  intros [] Hexec.
  destruct st; simpl in Hexec;
    unfold insert_user, insert_repo, update_repo, delete_repo, insert_conversation,
      delete_conversation, insert_message, delete_message, insert_document,
      delete_document, insert_document_chunk, update_document_chunk,
      delete_document_chunk, insert_rag_query, delete_rag_query,
      insert_retrieved_chunk, update_retrieved_chunk, delete_retrieved_chunk,
      checked in Hexec;
    open_exec; try (split; simpl; try fk_tac).
  - rewrite Forall_forall in *. intros c Hc.
    apply (updated_repo_keys d r); [assumption| |now apply fk_conversation_repo0].
    left. apply list_elem_of_fmap. eauto.
  - rewrite Forall_forall in *. intros x Hx.
    apply (updated_repo_keys d r); [assumption| |now apply fk_document_repo0].
    right. apply list_elem_of_fmap. eauto.
Qed.

End SchemaFacts.

(** ** Stores built by accepted statements *)

Module StoreFacts.
Import Text TextFacts RepoName RepoNameFacts Schema SchemaFacts.

Lemma empty_keys_ok : keys_ok empty_db.
Proof. split; simpl; constructor. Qed.

Lemma empty_rows_ok : rows_ok empty_db.
Proof. split; simpl; constructor. Qed.

Lemma empty_integrity : integrity empty_db.
Proof. split; simpl; constructor. Qed.

Lemma reachable_keys_ok d : reachable d -> keys_ok d.
Proof.
  induction 1 as [|st d d' _ IH Hexec]; [apply empty_keys_ok|].
  now apply (exec_keys_ok st d).
Qed.

Lemma reachable_rows_ok d : reachable d -> rows_ok d.
Proof.
  induction 1 as [|st d d' _ IH Hexec]; [apply empty_rows_ok|].
  now apply (exec_rows_ok st d).
Qed.

Lemma reachable_integrity d : reachable d -> integrity d.
Proof.
  induction 1 as [|st d d' _ IH Hexec]; [apply empty_integrity|].
  now apply (exec_integrity st d).
Qed.

Lemma run_reachable script d d' :
  reachable d -> run script d = Some d' -> reachable d'.
Proof.
  revert d. induction script as [|st rest IH]; intros d Hd; simpl.
  - now intros [= <-].
  - destruct (exec st d) as [d1|] eqn:E; [|discriminate].
    apply IH. now apply (reachable_exec st d).
Qed.

Lemma after_reachable script : reachable (Scenario.after script).
Proof.
  unfold Scenario.after. destruct (run script empty_db) as [d|] eqn:E.
  - apply (run_reachable script empty_db); [constructor|exact E].
  - constructor.
Qed.

(** Rows told apart by a key that never repeats are told apart by it. *)
Lemma same_key_same_row {A K} (f : A -> K) (l : list A) x y :
  NoDup (f <$> l) -> x ∈ l -> y ∈ l -> f x = f y -> x = y.
Proof.
  induction l as [|a l IH]; [intros _ Hx; now apply elem_of_nil in Hx|].
  rewrite fmap_cons, NoDup_cons. intros [Ha Hl] Hx Hy Hxy.
  apply elem_of_cons in Hx as [->|Hx]; apply elem_of_cons in Hy as [->|Hy].
  - reflexivity.
  - exfalso. apply Ha. rewrite Hxy. apply list_elem_of_fmap. eauto.
  - exfalso. apply Ha. rewrite <- Hxy. apply list_elem_of_fmap. eauto.
  - now apply IH.
Qed.

End StoreFacts.

(* ===================================================================== *)
(** * The store: keys, ranks, embeddings, names, deletion                 *)
(* ===================================================================== *)

Module StoreClaims.
Import Text TextFacts RepoName RepoNameFacts Schema SchemaFacts StoreFacts.

(** C1 (as amended). In every store built by accepted statements the rows
    of [document_chunks] are told apart by their [id] alone, and each names
    an existing document or none. The pairs [(document_id, chunk_index)]
    and [(document_id, chunk_hash)] are not keys: a row with a fresh [id]
    that satisfies the column constraints is accepted whatever document,
    index and hash it repeats. *)
Theorem document_chunks_keyed_by_id_only (d : db) :
  reachable d ->
  NoDup (chunk_id <$> document_chunks d) /\
  (forall c1 c2, c1 ∈ document_chunks d -> c2 ∈ document_chunks d ->
                 chunk_id c1 = chunk_id c2 -> c1 = c2) /\
  (forall c, c ∈ document_chunks d ->
             ref_ok (chunk_document_id c) (document_id <$> documents d)) /\
  (forall c, chunk_id c ∉ chunk_id <$> document_chunks d -> chunk_row_ok c d ->
             exec (InsertDocumentChunk c) d
             = Some (with_document_chunks d (c :: document_chunks d))).
Proof.
  intros Hd.
  pose proof (key_document_chunks d (reachable_keys_ok d Hd)) as Hkeys.
  pose proof (fk_chunk_document d (reachable_integrity d Hd)) as Hfk.
  split; [exact Hkeys|]. split; [|split].
  - intros c1 c2. now apply same_key_same_row.
  - rewrite Forall_forall in Hfk. exact Hfk.
  - intros c Hfresh Hrow. simpl. unfold insert_document_chunk.
    destruct (decide (chunk_id c ∈ chunk_id <$> document_chunks d)); [contradiction|].
    destruct (decide (chunk_row_ok c d)); [reflexivity|contradiction].
Qed.

Lemma document_chunks_keyed_by_id_only_witness :
  NoDup (chunk_id <$> document_chunks (Scenario.after Scenario.ingest)) /\
  (forall c1 c2, c1 ∈ document_chunks (Scenario.after Scenario.ingest) ->
                 c2 ∈ document_chunks (Scenario.after Scenario.ingest) ->
                 chunk_id c1 = chunk_id c2 -> c1 = c2) /\
  (forall c, c ∈ document_chunks (Scenario.after Scenario.ingest) ->
             ref_ok (chunk_document_id c)
                    (document_id <$> documents (Scenario.after Scenario.ingest))) /\
  (forall c, chunk_id c ∉ chunk_id <$> document_chunks (Scenario.after Scenario.ingest) ->
             chunk_row_ok c (Scenario.after Scenario.ingest) ->
             exec (InsertDocumentChunk c) (Scenario.after Scenario.ingest)
             = Some (with_document_chunks (Scenario.after Scenario.ingest)
                       (c :: document_chunks (Scenario.after Scenario.ingest)))).
Proof.
  apply (document_chunks_keyed_by_id_only (Scenario.after Scenario.ingest)).
  apply (run_reachable Scenario.ingest empty_db); [constructor|].
  vm_compute. reflexivity.
Defined.

(** C1 as stated fails: after one repository, one document and the same
    chunk inserted under two keys, the store holds two different rows with
    the same [document_id], the same [chunk_index] and the same
    [chunk_hash]. *)
Lemma document_chunks_pairs_repeat :
  reachable (Scenario.after Scenario.ingest) /\
  Scenario.chunk0 2%N ∈ document_chunks (Scenario.after Scenario.ingest) /\
  Scenario.chunk0 3%N ∈ document_chunks (Scenario.after Scenario.ingest) /\
  Scenario.chunk0 2%N <> Scenario.chunk0 3%N /\
  chunk_document_id (Scenario.chunk0 2%N) = chunk_document_id (Scenario.chunk0 3%N) /\
  chunk_document_id (Scenario.chunk0 2%N) <> None /\
  chunk_index (Scenario.chunk0 2%N) = chunk_index (Scenario.chunk0 3%N) /\
  chunk_hash (Scenario.chunk0 2%N) = chunk_hash (Scenario.chunk0 3%N).
Proof.
  split; [apply after_reachable|].
  change (document_chunks (Scenario.after Scenario.ingest))
    with [Scenario.chunk0 3%N; Scenario.chunk0 2%N].
  repeat split; try discriminate.
  - apply elem_of_cons. right. apply elem_of_cons. now left.
  - apply elem_of_cons. now left.
Qed.


(** C2 (as amended). In every store built by accepted statements the rows
    of [retrieved_chunks] are told apart by their [id], and each names an
    existing query and an existing chunk, or none. [rank] is a nullable
    32-bit integer and nothing more: a row with a fresh [id] is accepted
    with any such rank, whatever ranks the rows of the same query carry. *)
Theorem retrieved_chunks_rank_unconstrained (d : db) :
  reachable d ->
  NoDup (retrieved_id <$> retrieved_chunks d) /\
  (forall x, x ∈ retrieved_chunks d ->
             ref_ok (rc_rag_query_id x) (query_id <$> rag_queries d) /\
             ref_ok (rc_document_chunk_id x) (chunk_id <$> document_chunks d)) /\
  (forall x, retrieved_id x ∉ retrieved_id <$> retrieved_chunks d ->
             ref_ok (rc_rag_query_id x) (query_id <$> rag_queries d) ->
             ref_ok (rc_document_chunk_id x) (chunk_id <$> document_chunks d) ->
             int4_opt (rc_rank x) ->
             exec (InsertRetrievedChunk x) d
             = Some (with_retrieved_chunks d (x :: retrieved_chunks d))).
Proof.
  intros Hd.
  pose proof (key_retrieved_chunks d (reachable_keys_ok d Hd)) as Hkeys.
  pose proof (fk_retrieved_query d (reachable_integrity d Hd)) as Hq.
  pose proof (fk_retrieved_chunk d (reachable_integrity d Hd)) as Hc.
  rewrite Forall_forall in Hq, Hc.
  split; [exact Hkeys|]. split.
  - intros x Hx. split; auto.
  - intros x Hfresh H1 H2 H3. simpl. unfold insert_retrieved_chunk.
    destruct (decide (retrieved_id x ∈ retrieved_id <$> retrieved_chunks d));
      [contradiction|].
    destruct (decide (retrieved_row_ok x d)) as [|Hno]; [reflexivity|].
    exfalso. apply Hno. repeat split; assumption.
Qed.

Lemma retrieved_chunks_rank_unconstrained_witness :
  NoDup (retrieved_id <$> retrieved_chunks (Scenario.after Scenario.answer_once)) /\
  (forall x, x ∈ retrieved_chunks (Scenario.after Scenario.answer_once) ->
             ref_ok (rc_rag_query_id x)
                    (query_id <$> rag_queries (Scenario.after Scenario.answer_once)) /\
             ref_ok (rc_document_chunk_id x)
                    (chunk_id <$> document_chunks (Scenario.after Scenario.answer_once))) /\
  (forall x, retrieved_id x ∉ retrieved_id <$> retrieved_chunks (Scenario.after Scenario.answer_once) ->
             ref_ok (rc_rag_query_id x)
                    (query_id <$> rag_queries (Scenario.after Scenario.answer_once)) ->
             ref_ok (rc_document_chunk_id x)
                    (chunk_id <$> document_chunks (Scenario.after Scenario.answer_once)) ->
             int4_opt (rc_rank x) ->
             exec (InsertRetrievedChunk x) (Scenario.after Scenario.answer_once)
             = Some (with_retrieved_chunks (Scenario.after Scenario.answer_once)
                       (x :: retrieved_chunks (Scenario.after Scenario.answer_once)))).
Proof.
  apply (retrieved_chunks_rank_unconstrained (Scenario.after Scenario.answer_once)).
  apply (run_reachable Scenario.answer_once empty_db); [constructor|].
  vm_compute. reflexivity.
Defined.

(** C2 as stated fails: the store accepts, for one query, two audit rows
    used in the prompt that both carry rank 2; their ranks repeat and
    rank 1 is missing. *)
Lemma retrieved_chunks_ranks_repeat :
  reachable (Scenario.after Scenario.answer_once) /\
  filter (fun x => rc_rag_query_id x = Some 7%N /\ rc_used_in_prompt x = true)
         (retrieved_chunks (Scenario.after Scenario.answer_once))
  = [Scenario.audit 10%N 3%N (Some 2%Z); Scenario.audit 9%N 2%N (Some 2%Z)] /\
  rc_rank <$> [Scenario.audit 10%N 3%N (Some 2%Z); Scenario.audit 9%N 2%N (Some 2%Z)]
  = [Some 2%Z; Some 2%Z] /\
  ~ NoDup [Some 2%Z; Some 2%Z] /\
  Some 1%Z ∉ [Some 2%Z; Some 2%Z].
Proof.
  split; [apply after_reachable|].
  split; [vm_compute; reflexivity|].
  split; [reflexivity|]. split.
  - rewrite NoDup_cons. intros [Hin _]. apply Hin. apply elem_of_cons. now left.
  - rewrite !elem_of_cons, elem_of_nil. intros [H|[H|[]]]; discriminate H.
Qed.

(** C5 (as amended). The one index over [document_chunks.embedding] is an
    [ivfflat] index built with [vector_l2_ops], the Euclidean distance; the
    distance is part of the index and no statement changes it. In every
    store built by accepted statements each stored embedding has 1536
    coordinates. (The model name beside it is a nullable column.) *)
Theorem embedding_index_euclidean_dim_1536 (d : db) :
  reachable d ->
  (exists i, indexes_on "document_chunks" "embedding" = [i] /\
             index_name i = "idx_document_chunks_embedding" /\
             index_method i = Ivfflat /\
             opclass_distance (index_opclass i) = Some Euclidean) /\
  (forall c v, c ∈ document_chunks d -> chunk_embedding c = Some v ->
               List.length v = 1536).
Proof.
  intros Hd. split.
  - eexists. split; [reflexivity|]. repeat split.
  - intros c v Hc Hv.
    pose proof (row_chunk_dim d (reachable_rows_ok d Hd)) as Hdim.
    rewrite Forall_forall in Hdim. specialize (Hdim c Hc).
    rewrite Hv in Hdim. exact Hdim.
Qed.

Lemma embedding_index_euclidean_dim_1536_witness :
  (exists i, indexes_on "document_chunks" "embedding" = [i] /\
             index_name i = "idx_document_chunks_embedding" /\
             index_method i = Ivfflat /\
             opclass_distance (index_opclass i) = Some Euclidean) /\
  (forall c v, c ∈ document_chunks (Scenario.after Scenario.embed) ->
               chunk_embedding c = Some v -> List.length v = 1536).
Proof.
  apply (embedding_index_euclidean_dim_1536 (Scenario.after Scenario.embed)).
  apply (run_reachable Scenario.embed empty_db); [constructor|].
  vm_compute. reflexivity.
Defined.

(** C5 as stated fails in its tag: the store accepts an embedding whose
    [embedding_model] is [NULL]. *)
Lemma embedding_without_model :
  reachable (Scenario.after Scenario.embed) /\
  Scenario.chunk0_embedded 2%N ∈ document_chunks (Scenario.after Scenario.embed) /\
  chunk_embedding (Scenario.chunk0_embedded 2%N) = Some (repeat 0%Z 1536) /\
  chunk_embedding_model (Scenario.chunk0_embedded 2%N) = None.
Proof.
  split; [apply after_reachable|].
  split; [|split; reflexivity].
  assert (E : document_chunks (Scenario.after Scenario.embed)
              = [Scenario.chunk0_embedded 2%N; Scenario.chunk0 3%N])
    by (vm_compute; reflexivity).
  rewrite E. apply elem_of_cons. now left.
Qed.





(** ** Deleting a repository *)

Lemma delete_repo_absent r d : r ∉ repo_id <$> repos d -> delete_repo r d = Some d.
Proof.
  intros Hr. unfold delete_repo.
  destruct (decide (r ∈ repo_id <$> repos d)); [contradiction|reflexivity].
Qed.

Lemma filtered_repo_absent r (l : list repo) :
  r ∉ repo_id <$> filter (fun x => repo_id x <> r) l.
Proof.
  rewrite list_elem_of_fmap. intros (x & Hx & Hin).
  apply list_elem_of_filter in Hin as [Hne _]. congruence.
Qed.

Lemma delete_repo_twice r d d' : delete_repo r d = Some d' -> delete_repo r d' = Some d'.
Proof.
  intros H. apply delete_repo_absent. unfold delete_repo, checked in H.
  destruct (decide (r ∈ repo_id <$> repos d)) as [Hin|Hout].
  - destruct (decide _); [|discriminate]. injection H as <-. simpl.
    apply filtered_repo_absent.
  - now injection H as <-.
Qed.

(** An accepted delete of a repository leaves nothing of it: no
    repository row, no conversation and no document of it, no chunk of
    its documents, no message or query of its conversations, and no audit
    row of those queries. *)
Lemma delete_repo_removes r d d' :
  r ∈ repo_id <$> repos d ->
  delete_repo r d = Some d' ->
  (r ∉ repo_id <$> repos d') /\
  (forall c, c ∈ conversations d' -> conv_repo_id c <> r) /\
  (forall x, x ∈ documents d' -> doc_repo_id x <> r) /\
  (forall c x, c ∈ document_chunks d' -> x ∈ documents d -> doc_repo_id x = r ->
               chunk_document_id c <> Some (document_id x)) /\
  (forall m c, m ∈ messages d' -> c ∈ conversations d -> conv_repo_id c = r ->
               msg_conversation_id m <> Some (conversation_id c)) /\
  (forall q c, q ∈ rag_queries d' -> c ∈ conversations d -> conv_repo_id c = r ->
               query_conversation_id q <> Some (conversation_id c)) /\
  (forall a q c, a ∈ retrieved_chunks d' -> q ∈ rag_queries d -> c ∈ conversations d ->
                 conv_repo_id c = r ->
                 query_conversation_id q = Some (conversation_id c) ->
                 rc_rag_query_id a <> Some (query_id q)).
Proof.
  intros Hin H. unfold delete_repo, checked in H.
  destruct (decide (r ∈ repo_id <$> repos d)) as [_|Hout]; [|contradiction].
  destruct (decide _) as [_|]; [|discriminate]. injection H as <-. simpl.
  split; [apply filtered_repo_absent|].
  assert (Hconv : forall c, c ∈ conversations d -> conv_repo_id c = r ->
            conversation_id c ∈ conversation_id <$>
              filter (fun c0 => conv_repo_id c0 = r) (conversations d)).
  { intros c Hc Hr. apply list_elem_of_fmap. exists c. split; [reflexivity|].
    now apply list_elem_of_filter. }
  assert (Hdoc : forall x, x ∈ documents d -> doc_repo_id x = r ->
            document_id x ∈ document_id <$>
              filter (fun x0 => doc_repo_id x0 = r) (documents d)).
  { intros x Hx Hr. apply list_elem_of_fmap. exists x. split; [reflexivity|].
    now apply list_elem_of_filter. }
  repeat split.
  + intros c Hc Hr. apply list_elem_of_filter in Hc as [Hkept Hc]. auto.
  + intros x Hx Hr. apply list_elem_of_filter in Hx as [Hkept Hx]. auto.
  + intros c x Hc Hx Hr E. apply list_elem_of_filter in Hc as [Hkept _].
    apply Hkept. rewrite E. simpl. auto.
  + intros m c Hm Hc Hr E. apply list_elem_of_filter in Hm as [Hkept _].
    apply Hkept. rewrite E. simpl. auto.
  + intros q c Hq Hc Hr E. apply list_elem_of_filter in Hq as [Hkept Hq].
    apply (kept_not_selected query_id _ _ _ Hq) in Hkept.
    apply Hkept. rewrite E. simpl. auto.
  + intros a q c Ha Hq Hc Hr Eq Ea. apply list_elem_of_filter in Ha as [Hkept _].
    apply Hkept. rewrite Ea. simpl.
    apply list_elem_of_fmap. exists q. split; [reflexivity|].
    apply list_elem_of_filter. split; [|exact Hq]. rewrite Eq. simpl. auto.
Qed.


(** C4 at the failing input. A question asked outside any conversation has
    left an audit row that refers to a chunk of repository "r1". Deleting
    the repository is then refused by the foreign key of
    [retrieved_chunks.document_chunk_id], which has no [ON DELETE] action:
    the statement raises and every row of the repository stays. Without the
    audit rows the same delete empties the store. *)
Lemma delete_repo_refused_by_audit_row :
  reachable (Scenario.after Scenario.answer_once) /\
  "r1" ∈ repo_id <$> repos (Scenario.after Scenario.answer_once) /\
  rc_document_chunk_id (Scenario.audit 9%N 2%N (Some 2%Z)) = Some (chunk_id (Scenario.chunk0 2%N)) /\
  query_conversation_id Scenario.query7 = None /\
  exec (DeleteRepo "r1") (Scenario.after Scenario.answer_once) = None /\
  exec (DeleteRepo "r1") (Scenario.after Scenario.ingest) = Some empty_db.
Proof.
  split; [apply after_reachable|].
  split; [|repeat split; vm_compute; reflexivity].
  assert (E : repo_id <$> repos (Scenario.after Scenario.answer_once) = ["r1"])
    by (vm_compute; reflexivity).
  rewrite E. apply elem_of_cons. now left.
Qed.

End StoreClaims.

(* ===================================================================== *)
(** * The client wrappers                                                 *)
(* ===================================================================== *)

Module ClientFacts.
Import Text Js Conversations Repos.


Lemma defined_truthy (v : value) : truthy v = true -> defined v = true.
Proof. destruct v as [[]|]; simpl; congruence. Qed.



Lemma find_defined l v : List.find defined l = Some v -> defined v = true.
Proof. intros H. now apply find_some in H. Qed.



(** ** Maps built in a loop *)






End ClientFacts.

Module ClientClaims.
Import Text Js Conversations Repos ClientFacts.
Import Schema SchemaFacts StoreFacts StoreClaims.









(** C7 (as amended). On the store, deleting a repository that is not there
    is accepted and changes nothing, so a delete that went through can be
    repeated without an error. The wrapper [deleteRepo] returns [true]
    exactly when the request is answered and the [status] field of the
    answer is the string "deleted"; for every other answered request it
    returns [false] and does not throw; a rejected request is thrown on to
    the caller. [handleDeleteRepo] catches both: it reports success only
    for [true], and an error notice for [false] and for a thrown error. *)
Theorem delete_repo_idempotent_and_reported :
  (forall d r, r ∉ repo_id <$> repos d -> exec (DeleteRepo r) d = Some d) /\
  (forall d r d', exec (DeleteRepo r) d = Some d' -> exec (DeleteRepo r) d' = Some d') /\
  (forall res, deleteRepo (Return res) = Return true <->
               get (data res) "status" = Some (JStr "deleted")) /\
  (forall res, deleteRepo (Return res) = Return true \/
               deleteRepo (Return res) = Return false) /\
  (forall e, deleteRepo (Throw e) = Throw e) /\
  (forall repo reply s,
      match deleteRepo reply with
      | Return true =>
          Sidebar.handleDeleteRepo repo reply s
          = ({| Sidebar.repoDeletingId := None;
                Sidebar.hiddenRepoIds := Sidebar.hiddenRepoIds s ∪ {[ repo ]};
                Sidebar.briefs := delete repo (Sidebar.briefs s) |},
             [Sidebar.OnRepoDeleted repo; Sidebar.DispatchRepoDeleted repo;
              Sidebar.ToastSuccess "Repository deleted"])
      | Return false =>
          Sidebar.handleDeleteRepo repo reply s
          = ({| Sidebar.repoDeletingId := None;
                Sidebar.hiddenRepoIds := Sidebar.hiddenRepoIds s;
                Sidebar.briefs := Sidebar.briefs s |},
             [Sidebar.ToastError "Failed to delete repository"])
      | Throw e =>
          Sidebar.handleDeleteRepo repo reply s
          = ({| Sidebar.repoDeletingId := None;
                Sidebar.hiddenRepoIds := Sidebar.hiddenRepoIds s;
                Sidebar.briefs := Sidebar.briefs s |},
             [Sidebar.ToastError (Sidebar.message_or e "Couldn’t delete repository")])
      end).
Proof.
  split; [intros d r; apply delete_repo_absent|].
  split; [intros d r d'; apply delete_repo_twice|].
  split; [|split; [|split]].
  - intros res. unfold deleteRepo.
    destruct (get (data res) "status") as [[| | |s| |]|]; split; try discriminate.
    + intros [= H]. apply String.eqb_eq in H. now subst s.
    + intros [= ->]. reflexivity.
  - intros res. unfold deleteRepo.
    destruct (get (data res) "status") as [[| | |s| |]|]; auto.
    destruct (s =? "deleted"); auto.
  - reflexivity.
  - intros repo reply s. unfold Sidebar.handleDeleteRepo.
    destruct (deleteRepo reply) as [[|]|e]; reflexivity.
Qed.

Lemma delete_repo_idempotent_and_reported_witness :
  exec (DeleteRepo "r1") empty_db = Some empty_db /\
  deleteRepo (Return ClientScenario.deleted_reply) = Return true.
Proof.
  split.
  - apply (proj1 (proj2 delete_repo_idempotent_and_reported)
             (Scenario.after Scenario.ingest) "r1" empty_db).
    vm_compute. reflexivity.
  - apply (proj1 (proj2 (proj2 delete_repo_idempotent_and_reported))
             ClientScenario.deleted_reply).
    vm_compute. reflexivity.
Defined.

(** C7 as stated fails for a rejected request: when the server answers
    with status 404 (the answer carries no [status] field "deleted"), the
    wrapper does not return [false]; it throws what the HTTP client threw. *)
Lemma deleteRepo_rethrows :
  err_response_status ClientScenario.not_found = Some 404%Z /\
  deleteRepo (Throw ClientScenario.not_found) = Throw ClientScenario.not_found /\
  deleteRepo (Throw ClientScenario.not_found) <> Return false.
Proof. repeat split; discriminate. Qed.

End ClientClaims.

(* ===================================================================== *)
(** * The chat page: the context cache and the readiness gate             *)
(* ===================================================================== *)

Module PageFacts.
Import Text Js Effects WebStorage ChatPage.

Lemma setItem_inv ls k v ls' :
  setItem ls k v = Return ls' ->
  denied ls = false /\ items ls' = <[k := v]> (items ls) /\ denied ls' = false.
Proof.
  unfold setItem. destruct (denied ls) eqn:Hd; [discriminate|].
  destruct (N.leb _ _); [|discriminate].
  intros [= <-]. simpl. auto.
Qed.

Lemma getItem_after_set ls k v ls' :
  setItem ls k v = Return ls' -> getItem ls' k = Return (Some v).
Proof.
  intros H. apply setItem_inv in H as (_ & Hitems & Hd).
  unfold getItem. rewrite Hd, Hitems. now rewrite lookup_insert_eq.
Qed.

Lemma present_nonempty s : s <> "" -> present (Some s) = Some s.
Proof.
  intros H. simpl. destruct (String.eqb_spec s ""); [contradiction|reflexivity].
Qed.

Section Cache.
Variable JSON_stringify : json -> string.
Variable JSON_parse : string -> option json.
Hypothesis parse_empty : JSON_parse "" = None.

Lemma stringify_nonempty v :
  JSON_parse (JSON_stringify v) = Some v -> JSON_stringify v <> "".
Proof. intros H E. rewrite E, parse_empty in H. discriminate. Qed.

(** What was written is what is read, when the storage took it. *)
Lemma read_after_write ls cid (m : gmap string json) ls' :
  setItem ls (ctxKey cid) (JSON_stringify (JObj m)) = Return ls' ->
  JSON_parse (JSON_stringify (JObj m)) = Some (JObj m) ->
  writeCtxCache JSON_stringify ls cid (JObj m) = ls' /\
  readCtxCache JSON_parse ls' cid = JObj m.
Proof.
  intros Hset Hrt. split.
  - unfold writeCtxCache. now rewrite Hset.
  - unfold readCtxCache. rewrite (getItem_after_set _ _ _ _ Hset).
    rewrite present_nonempty by now apply stringify_nonempty.
    now rewrite Hrt.
Qed.

Lemma write_refused ls cid v e :
  setItem ls (ctxKey cid) (JSON_stringify v) = Throw e ->
  writeCtxCache JSON_stringify ls cid v = ls.
Proof. intros H. unfold writeCtxCache. now rewrite H. Qed.

Lemma spread_lookup base add k :
  own_properties (spread base add) !! k
  = match own_properties add !! k with
    | Some v => Some v
    | None => own_properties base !! k
    end.
Proof.
  unfold spread. cbn [own_properties]. rewrite lookup_union.
  destruct (own_properties add !! k), (own_properties base !! k); reflexivity.
Qed.

(** A read that cannot be served gives the empty object. *)
Lemma read_failed ls cid :
  denied ls = true \/
  items ls !! ctxKey cid = None \/
  items ls !! ctxKey cid = Some "" \/
  (exists t, items ls !! ctxKey cid = Some t /\
             (JSON_parse t = None \/ JSON_parse t = Some JNull \/
              (exists b, JSON_parse t = Some (JBool b)) \/
              (exists n, JSON_parse t = Some (JNum n)) \/
              (exists s, JSON_parse t = Some (JStr s)))) ->
  readCtxCache JSON_parse ls cid = JObj ∅.
Proof.
  unfold readCtxCache, getItem.
  intros [Hd|H]; [now rewrite Hd|].
  destruct (denied ls); [reflexivity|].
  destruct H as [H|[H|(t & H & Hp)]]; rewrite H; try reflexivity.
  simpl. destruct (t =? ""); [reflexivity|].
  destruct Hp as [Hp|[Hp|[[b Hp]|[[n Hp]|[s Hp]]]]]; now rewrite Hp.
Qed.

End Cache.

(** ** The gate of [handleAsk] *)

Section Gate.
Variable JSON_stringify : json -> string.
Variable JSON_parse : string -> option json.

Lemma handleAsk_no_repo env uid q w :
  present (repoId (page w)) = None ->
  handleAsk JSON_stringify JSON_parse env uid q w = (Return tt, w).
Proof.
  intros H. unfold handleAsk, bind, read. now rewrite H.
Qed.

Lemma handleAsk_busy env uid q w :
  isAsking (page w) = true ->
  handleAsk JSON_stringify JSON_parse env uid q w = (Return tt, w).
Proof.
  intros H. unfold handleAsk, bind, read. rewrite H.
  destruct (present (repoId (page w))); reflexivity.
Qed.

Lemma refresh_gate_unavailable env repo w :
  reply_status env = Return None \/ (exists e, reply_status env = Throw e) ->
  refresh_gate env repo w
  = (Return false,
     {| page := page w; storage := storage w;
        calls := (calls w ++ [GetRepoStatus repo])
                   ++ [ToastError "Repository is not ready yet."] |}).
Proof.
  intros [H|[e H]]; unfold refresh_gate, try_catch, bind, emit, modify, await, ret;
    cbn; rewrite H; reflexivity.
Qed.

Lemma refresh_gate_not_indexed env repo w s :
  reply_status env = Return (Some s) ->
  status_ready (Some s) = false ->
  refresh_gate env repo w
  = (Return false,
     {| page :=
          {| repoId := repoId (page w); conversationId := conversationId (page w);
             chatHistory := chatHistory (page w); isAsking := isAsking (page w);
             repoStatus := Some s; manuallyReady := manuallyReady (page w);
             newRepoMode := newRepoMode (page w); reloadKey := reloadKey (page w);
             ctxByMessage := ctxByMessage (page w) |};
        storage := storage w;
        calls := (calls w ++ [GetRepoStatus repo])
                   ++ [ToastError "Repository is not indexed yet."] |}).
Proof.
  intros H Hr.
  unfold refresh_gate, try_catch, bind, emit, modify, await, ret, setRepoStatus, set_page.
  cbn. rewrite H. cbn. rewrite Hr. reflexivity.
Qed.

Lemma refresh_gate_ready env repo w s :
  reply_status env = Return (Some s) ->
  status_ready (Some s) = true ->
  refresh_gate env repo w
  = (Return true,
     {| page :=
          {| repoId := repoId (page w); conversationId := conversationId (page w);
             chatHistory := chatHistory (page w); isAsking := isAsking (page w);
             repoStatus := Some s; manuallyReady := manuallyReady (page w);
             newRepoMode := newRepoMode (page w); reloadKey := reloadKey (page w);
             ctxByMessage := ctxByMessage (page w) |};
        storage := storage w;
        calls := calls w ++ [GetRepoStatus repo] |}).
Proof.
  intros H Hr.
  unfold refresh_gate, try_catch, bind, emit, modify, await, ret, setRepoStatus, set_page.
  cbn. rewrite H. cbn. rewrite Hr. reflexivity.
Qed.

Lemma handleAsk_not_indexed env uid q w repo s :
  present (repoId (page w)) = Some repo ->
  isAsking (page w) = false ->
  isRepoReady (page w) = false ->
  reply_status env = Return (Some s) ->
  status_ready (Some s) = false ->
  handleAsk JSON_stringify JSON_parse env uid q w
  = (Return tt,
     {| page :=
          {| repoId := repoId (page w); conversationId := conversationId (page w);
             chatHistory := chatHistory (page w); isAsking := isAsking (page w);
             repoStatus := Some s; manuallyReady := manuallyReady (page w);
             newRepoMode := newRepoMode (page w); reloadKey := reloadKey (page w);
             ctxByMessage := ctxByMessage (page w) |};
        storage := storage w;
        calls := (calls w ++ [GetRepoStatus repo])
                   ++ [ToastError "Repository is not indexed yet."] |}).
Proof.
  intros Hrepo Hbusy Hready E Hr. unfold handleAsk, bind at 1, read.
  rewrite Hrepo, Hbusy, Hready. unfold bind.
  rewrite (refresh_gate_not_indexed env repo w s E Hr). cbn.
  rewrite Hbusy. reflexivity.
Qed.

Lemma handleAsk_unavailable env uid q w repo :
  present (repoId (page w)) = Some repo ->
  isAsking (page w) = false ->
  isRepoReady (page w) = false ->
  reply_status env = Return None \/ (exists e, reply_status env = Throw e) ->
  handleAsk JSON_stringify JSON_parse env uid q w
  = (Return tt,
     {| page := page w; storage := storage w;
        calls := (calls w ++ [GetRepoStatus repo])
                   ++ [ToastError "Repository is not ready yet."] |}).
Proof.
  intros Hrepo Hbusy Hready E. unfold handleAsk, bind at 1, read.
  rewrite Hrepo, Hbusy, Hready. unfold bind.
  rewrite (refresh_gate_unavailable env repo w E). reflexivity.
Qed.

(** Past the gate the handler never throws and leaves [isAsking] off. *)
Lemma guarded_body_returns (m : M world unit) label w :
  exists w',
    try_finally (try_catch m (fun e => emit (ConsoleError label e))) (setIsAsking false) w
    = (Return tt, w') /\ isAsking (page w') = false.
Proof.
  unfold try_finally, try_catch, emit, setIsAsking, set_page, modify.
  destruct (m w) as [[[]|e] w1]; cbn; eexists; split; reflexivity.
Qed.

Lemma handleAsk_returns env uid q w :
  (handleAsk JSON_stringify JSON_parse env uid q w).1 = Return tt.
Proof.
  unfold handleAsk, bind, read.
  destruct (present (repoId (page w))) as [repo|]; [|reflexivity].
  destruct (isAsking (page w)); [reflexivity|].
  destruct (isRepoReady (page w)).
  - cbn.
    match goal with
    | |- context [try_finally (try_catch ?m _) _ ?w1] =>
        destruct (guarded_body_returns m "Ask error:" w1) as (w' & -> & _)
    end.
    reflexivity.
  - destruct (reply_status env) as [[s|]|e] eqn:E.
    + destruct (status_ready (Some s)) eqn:Hr.
      * rewrite (refresh_gate_ready env repo w s E Hr). cbn.
        match goal with
        | |- context [try_finally (try_catch ?m _) _ ?w1] =>
            destruct (guarded_body_returns m "Ask error:" w1) as (w' & -> & _)
        end.
        reflexivity.
      * now rewrite (refresh_gate_not_indexed env repo w s E Hr).
    + rewrite refresh_gate_unavailable by (left; exact E). reflexivity.
    + rewrite refresh_gate_unavailable by (right; eauto). reflexivity.
Qed.

End Gate.

End PageFacts.

Module CacheClaims.
Import Text Js Effects WebStorage ChatPage PageFacts.

Section CacheClaim.
Variable JSON_stringify : json -> string.
Variable JSON_parse : string -> option json.
Hypothesis parse_empty : JSON_parse "" = None.

(** C9 (as amended). For every conversation id and every map that
    [JSON.parse] reads back from its [JSON.stringify] text: when
    [localStorage] takes the item, reading the cache right after writing
    the map returns that map; when [localStorage] refuses it, the write is
    dropped without an error and the storage is as before.
    [mergeCtxCache(cid, add)] returns the object that agrees with [add] on
    every key of [add] and with the map read before on every other key,
    and hands it to [writeCtxCache]: it is what the next read returns if
    the storage took it. A read that fails (access denied), finds no item
    or an empty one, cannot parse the item, or parses [null], a boolean, a
    number or a string, returns the empty object; no read or write
    throws. *)
Theorem ctx_cache_round_trip (ls : Storage) (cid : string)
    (m : gmap string json) (add : json) :
  (forall ls',
      setItem ls (ctxKey cid) (JSON_stringify (JObj m)) = Return ls' ->
      JSON_parse (JSON_stringify (JObj m)) = Some (JObj m) ->
      writeCtxCache JSON_stringify ls cid (JObj m) = ls' /\
      readCtxCache JSON_parse ls' cid = JObj m) /\
  (forall e,
      setItem ls (ctxKey cid) (JSON_stringify (JObj m)) = Throw e ->
      writeCtxCache JSON_stringify ls cid (JObj m) = ls) /\
  (let merged := (mergeCtxCache JSON_stringify JSON_parse ls cid add).1 in
   let stored := (mergeCtxCache JSON_stringify JSON_parse ls cid add).2 in
   merged = spread (readCtxCache JSON_parse ls cid) add /\
   stored = writeCtxCache JSON_stringify ls cid merged /\
   (forall k,
       own_properties merged !! k
       = match own_properties add !! k with
         | Some v => Some v
         | None => own_properties (readCtxCache JSON_parse ls cid) !! k
         end) /\
   (forall ls',
       setItem ls (ctxKey cid) (JSON_stringify merged) = Return ls' ->
       JSON_parse (JSON_stringify merged) = Some merged ->
       stored = ls' /\ readCtxCache JSON_parse ls' cid = merged)) /\
  (denied ls = true \/
   items ls !! ctxKey cid = None \/
   items ls !! ctxKey cid = Some "" \/
   (exists t, items ls !! ctxKey cid = Some t /\
              (JSON_parse t = None \/ JSON_parse t = Some JNull \/
               (exists b, JSON_parse t = Some (JBool b)) \/
               (exists n, JSON_parse t = Some (JNum n)) \/
               (exists s, JSON_parse t = Some (JStr s)))) ->
   readCtxCache JSON_parse ls cid = JObj ∅).
Proof.
  split; [|split; [|split]].
  - intros ls'. now apply read_after_write.
  - intros e. apply write_refused.
  - cbn zeta. unfold mergeCtxCache. cbn [fst snd].
    split; [reflexivity|]. split; [reflexivity|]. split.
    + intros k. apply spread_lookup.
    + intros ls'. unfold spread. now apply read_after_write.
  - now apply read_failed.
Qed.

End CacheClaim.

Lemma ctx_cache_round_trip_witness :
  readCtxCache JsonText.parse
    (writeCtxCache JsonText.stringify PageScenario.roomy "c1"
       (JObj PageScenario.contexts_m1)) "c1"
  = JObj PageScenario.contexts_m1.
Proof.
  assert (Hempty : JsonText.parse "" = None) by (vm_compute; reflexivity).
  destruct (proj1 (ctx_cache_round_trip JsonText.stringify JsonText.parse Hempty
                     PageScenario.roomy "c1" PageScenario.contexts_m1 JNull)
              {| items := <[ctxKey "c1" := JsonText.stringify (JObj PageScenario.contexts_m1)]> ∅;
                 capacity := 5000000%N; denied := false |})
    as [Hw Hr].
  - vm_compute. reflexivity.
  - vm_compute. reflexivity.
  - rewrite Hw. exact Hr.
Defined.

(** C9 as stated fails when [localStorage] refuses the item: with no room
    left, a map that [JSON.parse] reads back from its text is written and
    the read that follows returns the empty object, not the map; the merge
    returns the merged map and persists nothing. The same happens when
    access to the storage is denied. *)
Lemma ctx_cache_write_dropped :
  JsonText.parse (JsonText.stringify (JObj PageScenario.contexts_m1))
  = Some (JObj PageScenario.contexts_m1) /\
  readCtxCache JsonText.parse
    (writeCtxCache JsonText.stringify PageScenario.full "c1"
       (JObj PageScenario.contexts_m1)) "c1"
  = JObj ∅ /\
  JObj ∅ <> JObj PageScenario.contexts_m1 /\
  (mergeCtxCache JsonText.stringify JsonText.parse PageScenario.full "c1"
     (JObj PageScenario.contexts_m1)).2 = PageScenario.full /\
  readCtxCache JsonText.parse
    (writeCtxCache JsonText.stringify PageScenario.blocked "c1"
       (JObj PageScenario.contexts_m1)) "c1"
  = JObj ∅.
Proof.
  split; [vm_compute; reflexivity|].
  split; [vm_compute; reflexivity|].
  split; [|split; vm_compute; reflexivity].
  intros H.
  apply (f_equal (fun v => match v with JObj o => o !! "m1" | _ => None end)) in H.
  vm_compute in H. discriminate H.
Qed.

End CacheClaims.

Module GateClaims.
Import Text Js Effects WebStorage ChatPage PageFacts.

Section GateClaim.
Variable JSON_stringify : json -> string.
Variable JSON_parse : string -> option json.

(** C6 (as amended). [handleAsk] never throws, and it sends an answer
    request only for a selected repository, with no ask under way, that
    passes the gate: [isRepoReady] holds (the page was marked ready, or the
    chat history holds an assistant message, or the known status label is
    "indexed" or "done", or its document count is positive), or else a
    fresh status read reports such a label or count. With no repository
    selected or an ask under way it does nothing. When the gate is not
    passed nothing is asked of the server but the status: a fresh status
    that is not ready gives the notice "Repository is not indexed yet.", a
    status read that fails or returns nothing gives "Repository is not
    ready yet.". [QueryForm.ask] hands a question on only when it is not
    blank and [canAsk] holds; a non-blank question with [canAsk] false
    sets the error text "Repository is not ready yet." instead. *)
Theorem ask_only_past_the_gate (env : replies) (uid : option string) (q : string)
    (st : state) (ls : Storage) :
  (handleAsk JSON_stringify JSON_parse env uid q (fresh st ls)).1 = Return tt /\
  (forall repo qq c u k,
      AskAnswer repo qq c u k
        ∈ calls (handleAsk JSON_stringify JSON_parse env uid q (fresh st ls)).2 ->
      is_Some (present (repoId st)) /\ isAsking st = false /\
      (isRepoReady st = true \/
       exists s, reply_status env = Return (Some s) /\ status_ready (Some s) = true)) /\
  (present (repoId st) = None \/ isAsking st = true ->
   (handleAsk JSON_stringify JSON_parse env uid q (fresh st ls)).2 = fresh st ls) /\
  (forall repo s,
      present (repoId st) = Some repo -> isAsking st = false -> isRepoReady st = false ->
      reply_status env = Return (Some s) -> status_ready (Some s) = false ->
      calls (handleAsk JSON_stringify JSON_parse env uid q (fresh st ls)).2
      = [GetRepoStatus repo; ToastError "Repository is not indexed yet."] /\
      storage (handleAsk JSON_stringify JSON_parse env uid q (fresh st ls)).2 = ls /\
      repoStatus (page (handleAsk JSON_stringify JSON_parse env uid q (fresh st ls)).2)
      = Some s) /\
  (forall repo,
      present (repoId st) = Some repo -> isAsking st = false -> isRepoReady st = false ->
      reply_status env = Return None \/ (exists e, reply_status env = Throw e) ->
      (handleAsk JSON_stringify JSON_parse env uid q (fresh st ls)).2
      = {| page := st; storage := ls;
           calls := [GetRepoStatus repo; ToastError "Repository is not ready yet."] |}) /\
  (forall p i onAsk s asked,
      (QueryForm.ask p i onAsk s).2 = Some asked ->
      QueryForm.canAsk p i = true /\ asked = js_trim (QueryForm.question s) /\ asked <> "") /\
  (forall p i onAsk s,
      QueryForm.canAsk p i = false -> js_trim (QueryForm.question s) <> "" ->
      QueryForm.ask p i onAsk s
      = (Return tt,
         {| QueryForm.question := QueryForm.question s;
            QueryForm.loading := QueryForm.loading s;
            QueryForm.error_text := Some "Repository is not ready yet." |},
         None)).
Proof.
  split; [apply handleAsk_returns|].
  split; [|split; [|split; [|split; [|split]]]].
  - intros repo qq c u k Hin.
    destruct (present (repoId st)) as [r|] eqn:Hrepo.
    2:{ rewrite handleAsk_no_repo in Hin by exact Hrepo.
        now apply elem_of_nil in Hin. }
    destruct (isAsking st) eqn:Hbusy.
    { rewrite handleAsk_busy in Hin by exact Hbusy. now apply elem_of_nil in Hin. }
    split; [eauto|]. split; [reflexivity|].
    destruct (isRepoReady st) eqn:Hready; [now left|]. right.
    destruct (reply_status env) as [[s|]|e] eqn:E.
    + destruct (status_ready (Some s)) eqn:Hr; [eauto|].
      rewrite (handleAsk_not_indexed _ _ env uid q (fresh st ls) r s) in Hin
        by assumption.
      cbn in Hin. rewrite !elem_of_cons, elem_of_nil in Hin.
      destruct Hin as [H|[H|[]]]; discriminate H.
    + rewrite (handleAsk_unavailable _ _ env uid q (fresh st ls) r) in Hin
        by (try assumption; now left).
      cbn in Hin. rewrite !elem_of_cons, elem_of_nil in Hin.
      destruct Hin as [H|[H|[]]]; discriminate H.
    + rewrite (handleAsk_unavailable _ _ env uid q (fresh st ls) r) in Hin
        by (try assumption; right; eauto).
      cbn in Hin. rewrite !elem_of_cons, elem_of_nil in Hin.
      destruct Hin as [H|[H|[]]]; discriminate H.
  - intros [H|H].
    + now rewrite handleAsk_no_repo by exact H.
    + now rewrite handleAsk_busy by exact H.
  - intros repo s Hrepo Hbusy Hready E Hr.
    rewrite (handleAsk_not_indexed _ _ env uid q (fresh st ls) repo s) by assumption.
    repeat split.
  - intros repo Hrepo Hbusy Hready E.
    now rewrite (handleAsk_unavailable _ _ env uid q (fresh st ls) repo) by assumption.
  - intros p i onAsk s asked. unfold QueryForm.ask.
    destruct (String.eqb_spec (js_trim (QueryForm.question s)) "") as [|Hq];
      [discriminate|].
    destruct (QueryForm.canAsk p i); cbn.
    + destruct (onAsk _); cbn; intros [= <-]; auto.
    + discriminate.
  - intros p i onAsk s Hcan Hq. unfold QueryForm.ask.
    destruct (String.eqb_spec (js_trim (QueryForm.question s)) "") as [|_];
      [contradiction|].
    now rewrite Hcan.
Qed.

End GateClaim.

Lemma ask_only_past_the_gate_witness :
  calls (handleAsk JsonText.stringify JsonText.parse PageScenario.status_indexing None
           "what does f do?" (fresh PageScenario.waiting PageScenario.roomy)).2
  = [GetRepoStatus "r1"; ToastError "Repository is not indexed yet."] /\
  storage (handleAsk JsonText.stringify JsonText.parse PageScenario.status_indexing None
             "what does f do?" (fresh PageScenario.waiting PageScenario.roomy)).2
  = PageScenario.roomy /\
  repoStatus (page (handleAsk JsonText.stringify JsonText.parse PageScenario.status_indexing
                      None "what does f do?"
                      (fresh PageScenario.waiting PageScenario.roomy)).2)
  = Some PageScenario.indexing_status.
Proof.
  apply (proj1 (proj2 (proj2 (proj2
           (ask_only_past_the_gate JsonText.stringify JsonText.parse
              PageScenario.status_indexing None "what does f do?"
              PageScenario.waiting PageScenario.roomy))))
           "r1" PageScenario.indexing_status);
    vm_compute; reflexivity.
Defined.

(** C6 as stated fails in its notice. The repository is not ready, no
    answer request is sent, and yet the notice is not the "not indexed"
    one: when the status read fails the page says "Repository is not ready
    yet."; while an earlier ask is under way it says nothing at all; and
    the form, told by the page that it is disabled, sets its own error
    text "Repository is not ready yet." without calling the page. *)
Lemma ask_rejected_with_other_notice :
  isRepoReady PageScenario.waiting = false /\
  calls (handleAsk JsonText.stringify JsonText.parse PageScenario.status_fails None
           "what does f do?" (fresh PageScenario.waiting PageScenario.roomy)).2
  = [GetRepoStatus "r1"; ToastError "Repository is not ready yet."] /\
  isRepoReady PageScenario.busy = false /\
  calls (handleAsk JsonText.stringify JsonText.parse PageScenario.status_indexing None
           "what does f do?" (fresh PageScenario.busy PageScenario.roomy)).2
  = [] /\
  QueryForm.ask {| QueryForm.ready := None;
                   QueryForm.disabled := Some (negb (isRepoReady PageScenario.waiting)) |}
                false (fun _ => Return tt)
                {| QueryForm.question := "what does f do?"; QueryForm.loading := false;
                   QueryForm.error_text := None |}
  = (Return tt,
     {| QueryForm.question := "what does f do?"; QueryForm.loading := false;
        QueryForm.error_text := Some "Repository is not ready yet." |},
     None).
Proof. repeat split; vm_compute; reflexivity. Qed.

End GateClaims.

(* ===================================================================== *)
(** * The store: keys, references and deletes                             *)
(* ===================================================================== *)

Module StoreInvariants.
Import Text TextFacts RepoName RepoNameFacts Schema SchemaFacts StoreFacts Constraints.

Ltac unfold_exec H :=
  simpl in H;
  unfold insert_user, insert_repo, update_repo, delete_repo, insert_conversation,
    delete_conversation, insert_message, delete_message, insert_document,
    delete_document, insert_document_chunk, update_document_chunk,
    delete_document_chunk, insert_rag_query, delete_rag_query,
    insert_retrieved_chunk, update_retrieved_chunk, delete_retrieved_chunk,
    checked in H.

(** ** Unique e-mail addresses *)

Lemma exec_emails_unique st d d' :
  emails_unique d -> exec st d = Some d' -> emails_unique d'.
Proof.
  unfold emails_unique. intros Hu Hexec.
  destruct st; unfold_exec Hexec; open_exec; simpl; try assumption.
  apply NoDup_cons. now split.
Qed.

(** ** Unique names per owner *)

Lemma not_taken_fresh (row : repo) (rs : list repo) (x : repo) :
  ~ owner_name_taken (repo_owner_user_id row) (repo_name row) rs ->
  x ∈ rs ->
  is_Some (repo_owner_user_id row) \/ is_Some (repo_owner_user_id x) ->
  repo_owner_user_id row = repo_owner_user_id x ->
  repo_name row = repo_name x -> False.
Proof.
  intros Hfree Hx Hsome Ho Hn. apply Hfree.
  apply Exists_exists. exists x. split; [exact Hx|].
  split; [|now split].
  destruct Hsome as [H|H]; [exact H|]. now rewrite Ho.
Qed.

Lemma owner_names_cons (row : repo) (rs : list repo) :
  ~ owner_name_taken (repo_owner_user_id row) (repo_name row) rs ->
  (forall r1 r2, r1 ∈ rs -> r2 ∈ rs -> is_Some (repo_owner_user_id r1) ->
                 repo_owner_user_id r1 = repo_owner_user_id r2 ->
                 repo_name r1 = repo_name r2 -> r1 = r2) ->
  forall r1 r2, r1 ∈ row :: rs -> r2 ∈ row :: rs -> is_Some (repo_owner_user_id r1) ->
                repo_owner_user_id r1 = repo_owner_user_id r2 ->
                repo_name r1 = repo_name r2 -> r1 = r2.
Proof.
  intros Hfree IH r1 r2 H1 H2 Hsome Ho Hn.
  apply elem_of_cons in H1 as [->|H1]; apply elem_of_cons in H2 as [->|H2].
  - reflexivity.
  - exfalso. apply (not_taken_fresh row rs r2); auto.
  - exfalso. apply (not_taken_fresh row rs r1); auto.
  - now apply IH.
Qed.

Lemma owner_names_filter (P : repo -> Prop) `{!forall x, Decision (P x)} (rs : list repo) :
  (forall r1 r2, r1 ∈ rs -> r2 ∈ rs -> is_Some (repo_owner_user_id r1) ->
                 repo_owner_user_id r1 = repo_owner_user_id r2 ->
                 repo_name r1 = repo_name r2 -> r1 = r2) ->
  forall r1 r2, r1 ∈ filter P rs -> r2 ∈ filter P rs -> is_Some (repo_owner_user_id r1) ->
                repo_owner_user_id r1 = repo_owner_user_id r2 ->
                repo_name r1 = repo_name r2 -> r1 = r2.
Proof.
  intros IH r1 r2 H1 H2. apply list_elem_of_filter in H1 as [_ H1].
  apply list_elem_of_filter in H2 as [_ H2]. now apply IH.
Qed.

Lemma exec_owner_names_unique st d d' :
  owner_names_unique d -> exec st d = Some d' -> owner_names_unique d'.
Proof.
  unfold owner_names_unique. intros Hu Hexec.
  destruct st; unfold_exec Hexec; open_exec; simpl; try assumption.
  - now apply owner_names_cons.
  - apply owner_names_cons; [assumption|]. now apply owner_names_filter.
  - now apply owner_names_filter.
Qed.

(** ** What a cascade keeps *)

(** Rows removed by the keys of the selected rows: with keys that never
    repeat, exactly the selected rows go. *)
Lemma kept_by_key {A K} `{EqDecision K} (key : A -> K) (P : A -> Prop) `{!forall x, Decision (P x)}
    (l : list A) (x : A) :
  NoDup (key <$> l) ->
  x ∈ filter (fun y => key y ∉ key <$> filter P l) l <-> x ∈ l /\ ~ P x.
Proof.
  intros Hk. rewrite list_elem_of_filter. split; intros [H1 H2].
  - split; [exact H2|]. intros HP. apply H1.
    apply list_elem_of_fmap. exists x. split; [reflexivity|].
    apply list_elem_of_filter. now split.
  - split; [|exact H1]. intros Hg. apply list_elem_of_fmap in Hg as (x' & Hid & Hx').
    apply list_elem_of_filter in Hx' as [HP Hin].
    assert (x' = x) as -> by (eapply same_key_same_row; eauto).
    contradiction.
Qed.

(** Rows removed because they refer to a selected parent. *)
Lemma kept_by_reference {A B K} `{EqDecision K} (fk : A -> option K) (key : B -> K)
    (P : B -> Prop) `{!forall p, Decision (P p)}
    (children : list A) (parents : list B) (x : A) :
  x ∈ filter (fun y => ~ ref_in (fk y) (key <$> filter P parents)) children <->
  x ∈ children /\ forall p, p ∈ parents -> P p -> fk x <> Some (key p).
Proof.
  rewrite list_elem_of_filter. split; intros [H1 H2].
  - split; [exact H2|]. intros p Hp HP E. apply H1. rewrite E. simpl.
    apply list_elem_of_fmap. exists p. split; [reflexivity|].
    apply list_elem_of_filter. now split.
  - split; [|exact H1]. intros Hg. destruct (fk x) as [k|] eqn:E; [|exact Hg].
    simpl in Hg. apply list_elem_of_fmap in Hg as (p & -> & Hp).
    apply list_elem_of_filter in Hp as [HP Hp]. now apply (H2 p).
Qed.

(** ** When a delete is refused *)

Lemma checked_refused old new :
  checked old new = None <->
  exists a k, a ∈ retrieved_chunks new /\ rc_document_chunk_id a = Some k /\
              k ∈ chunk_id <$> document_chunks old /\
              k ∉ chunk_id <$> document_chunks new.
Proof.
  unfold checked. destruct (decide (no_action_ok old new)) as [Hok|Hno].
  - split; [discriminate|]. intros (a & k & Ha & Hk & Hold & Hnew). exfalso.
    unfold no_action_ok in Hok. rewrite Forall_forall in Hok.
    apply (Hok a Ha). rewrite Hk. simpl. unfold chunks_removed.
    apply list_elem_of_filter. now split.
  - split; [intros _|reflexivity].
    apply not_Forall_Exists in Hno; [|intros; apply _].
    apply Exists_exists in Hno as (a & Ha & Href). simpl in Href.
    destruct (rc_document_chunk_id a) as [k|] eqn:E.
    + exists a, k. split; [exact Ha|]. split; [exact E|].
      destruct (decide (k ∈ chunks_removed old new)) as [Hk|Hk].
      * unfold chunks_removed in Hk. apply list_elem_of_filter in Hk as [H1 H2]. now split.
      * exfalso. apply Href. simpl. exact Hk.
    + exfalso. apply Href. simpl. tauto.
Qed.

(** With keys that never repeat, a chunk is gone from a filtered table
    exactly when the filter rejects it. *)
Lemma chunk_key_gone (P : document_chunk -> Prop) `{!forall c, Decision (P c)}
    (l : list document_chunk) (c : document_chunk) :
  NoDup (chunk_id <$> l) -> c ∈ l ->
  chunk_id c ∉ chunk_id <$> filter P l <-> ~ P c.
Proof.
  intros Hk Hc. split.
  - intros Hout HP. apply Hout. apply list_elem_of_fmap. exists c.
    split; [reflexivity|]. apply list_elem_of_filter. now split.
  - intros HP Hin. apply list_elem_of_fmap in Hin as (c' & Hid & Hc').
    apply list_elem_of_filter in Hc' as [HP' Hc'].
    assert (c' = c) as -> by (eapply same_key_same_row; eauto). contradiction.
Qed.

End StoreInvariants.

Module StoreExtras.
Import Text TextFacts RepoName RepoNameFacts Schema SchemaFacts StoreFacts Constraints
  StoreInvariants.



(** X2. No table of a reachable store holds two rows with the same primary
    key, and a row is determined by its key. *)
Theorem primary_keys_unique (d : db) :
  reachable d ->
  keys_ok d /\
  (forall r1 r2, r1 ∈ repos d -> r2 ∈ repos d -> repo_id r1 = repo_id r2 -> r1 = r2) /\
  (forall c1 c2, c1 ∈ conversations d -> c2 ∈ conversations d ->
                 conversation_id c1 = conversation_id c2 -> c1 = c2) /\
  (forall x1 x2, x1 ∈ documents d -> x2 ∈ documents d ->
                 document_id x1 = document_id x2 -> x1 = x2).
Proof.
  intros H. assert (K : keys_ok d).
  { induction H as [|st d d' _ IH Hexec]; [apply empty_keys_ok|].
    exact (exec_keys_ok st d d' IH Hexec). }
  split; [exact K|]. destruct K. repeat split; intros; eapply same_key_same_row; eauto.
Qed.

Lemma primary_keys_unique_witness :
  reachable (Scenario.after StoreScenario.chat) /\
  keys_ok (Scenario.after StoreScenario.chat).
Proof.
  assert (H : reachable (Scenario.after StoreScenario.chat)).
  { apply (run_reachable StoreScenario.chat empty_db); [constructor|].
    vm_compute. reflexivity. }
  split; [exact H|]. exact (proj1 (primary_keys_unique _ H)).
Defined.

(** X3. The two [UNIQUE] constraints besides the keys hold in every
    reachable store: no two users share an e-mail address, and no owner has
    two repositories of the same name, whether the name was supplied or
    filled in by the trigger. An insert that would repeat a name of the
    same owner is refused. *)
Theorem unique_constraints_hold (d : db) :
  reachable d ->
  emails_unique d /\ owner_names_unique d /\
  (forall NEW r x,
      repo_of_new (repos_before_ins_upd_fill_name NEW) = Some r ->
      x ∈ repos d -> is_Some (repo_owner_user_id r) ->
      repo_owner_user_id x = repo_owner_user_id r -> repo_name x = repo_name r ->
      exec (InsertRepo NEW) d = None).
Proof.
  intros H. split; [|split].
  - induction H as [|st d d' _ IH Hexec]; [constructor|].
    exact (exec_emails_unique st d d' IH Hexec).
  - induction H as [|st d d' _ IH Hexec].
    + intros r1 r2 H1. now apply elem_of_nil in H1.
    + exact (exec_owner_names_unique st d d' IH Hexec).
  - intros NEW r x Hr Hx Hsome Ho Hn. simpl. unfold insert_repo. rewrite Hr.
    destruct (decide _); [reflexivity|].
    destruct (decide (ref_ok _ _)); [|reflexivity].
    destruct (decide (owner_name_taken _ _ _)) as [|Hfree]; [reflexivity|].
    exfalso. apply Hfree. apply Exists_exists. exists x. auto.
Qed.

Lemma unique_constraints_hold_witness :
  reachable (Scenario.after StoreScenario.owned) /\
  exec (InsertRepo (StoreScenario.new_owned "a3" "tools")) (Scenario.after StoreScenario.owned)
  = None.
Proof.
  assert (H : reachable (Scenario.after StoreScenario.owned)).
  { apply (run_reachable StoreScenario.owned empty_db); [constructor|].
    vm_compute. reflexivity. }
  split; [exact H|].
  apply (proj2 (proj2 (unique_constraints_hold _ H))
           (StoreScenario.new_owned "a3" "tools")
           {| repo_id := "a3"; repo_owner_user_id := Some 1%N;
              repo_source_type := "upload"; repo_source_uri := None;
              repo_storage_path := "/data/uploads/a.zip"; repo_name := "tools" |}
           {| repo_id := "a1"; repo_owner_user_id := Some 1%N;
              repo_source_type := "upload"; repo_source_uri := None;
              repo_storage_path := "/data/uploads/a.zip"; repo_name := "tools" |}).
  - vm_compute. reflexivity.
  - vm_compute. apply elem_of_cons. right. apply elem_of_cons. now left.
  - simpl. eauto.
  - reflexivity.
  - reflexivity.
Defined.

(** X4. Deleting a conversation is never refused. It removes the
    conversation, its messages, the queries asked in it and the audit rows
    of those queries, and nothing else: users, repositories, documents and
    chunks stay as they are, and so do the rows of other conversations. *)
Theorem delete_conversation_cascades (c : uuid) (d : db) :
  reachable d ->
  exists d',
    exec (DeleteConversation c) d = Some d' /\
    (forall cv, cv ∈ conversations d' <-> cv ∈ conversations d /\ conversation_id cv <> c) /\
    (forall m, m ∈ messages d' <-> m ∈ messages d /\ msg_conversation_id m <> Some c) /\
    (forall q, q ∈ rag_queries d' <->
               q ∈ rag_queries d /\ query_conversation_id q <> Some c) /\
    (forall a, a ∈ retrieved_chunks d' <->
               a ∈ retrieved_chunks d /\
               forall q, q ∈ rag_queries d -> query_conversation_id q = Some c ->
                         rc_rag_query_id a <> Some (query_id q)) /\
    users d' = users d /\ repos d' = repos d /\
    documents d' = documents d /\ document_chunks d' = document_chunks d.
Proof.
  intros Hd. pose proof (reachable_keys_ok d Hd) as K.
  exists (remove_conversations [c] d). split.
  { simpl. unfold delete_conversation, checked.
    destruct (decide _) as [|Hno]; [reflexivity|]. exfalso. apply Hno.
    unfold no_action_ok. apply Forall_forall. intros a _ Hin.
    destruct (rc_document_chunk_id a) as [k|]; [|exact Hin]. simpl in Hin.
    unfold chunks_removed in Hin. apply list_elem_of_filter in Hin as [Hout Hk].
    now apply Hout. }
  simpl. split; [|split; [|split; [|split; [|repeat split; reflexivity]]]].
  - intros cv. rewrite list_elem_of_filter, list_elem_of_singleton. tauto.
  - intros m. rewrite list_elem_of_filter. split; intros [H1 H2].
    + split; [exact H2|]. intros E. apply H1. rewrite E. simpl.
      now apply list_elem_of_singleton.
    + split; [|exact H1]. intros H.
      destruct (msg_conversation_id m) as [k|]; [|exact H]. simpl in H.
      apply list_elem_of_singleton in H. now subst.
  - intros q. rewrite list_elem_of_filter. split; intros [H1 H2].
    + split; [exact H2|]. intros E. apply H1.
      apply list_elem_of_fmap. exists q. split; [reflexivity|].
      apply list_elem_of_filter. split; [|exact H2].
      rewrite E. simpl. now apply list_elem_of_singleton.
    + split; [|exact H1]. intros H. apply list_elem_of_fmap in H as (q' & Hid & Hq').
      apply list_elem_of_filter in Hq' as [Hc Hq']. apply H2.
      assert (q' = q) as ->.
      { destruct K. eapply same_key_same_row; eauto. }
      destruct (query_conversation_id q) as [k|]; [|destruct Hc]. simpl in Hc.
      apply list_elem_of_singleton in Hc. now subst.
  - intros a. rewrite list_elem_of_filter. split; intros [H1 H2].
    + split; [exact H2|]. intros q Hq Hc E. apply H1.
      rewrite E. simpl. apply list_elem_of_fmap. exists q. split; [reflexivity|].
      apply list_elem_of_filter. split; [|exact Hq].
      rewrite Hc. simpl. now apply list_elem_of_singleton.
    + split; [|exact H1]. intros H.
      destruct (rc_rag_query_id a) as [k|] eqn:E; [|exact H]. simpl in H.
      apply list_elem_of_fmap in H as (q & -> & Hq).
      apply list_elem_of_filter in Hq as [Hc Hq].
      destruct (query_conversation_id q) as [k|] eqn:Eq; [|destruct Hc]. simpl in Hc.
      apply list_elem_of_singleton in Hc. subst k. now apply (H2 q).
Qed.

Lemma delete_conversation_cascades_witness :
  reachable (Scenario.after StoreScenario.chat) /\
  exists d',
    exec (DeleteConversation 5%N) (Scenario.after StoreScenario.chat) = Some d' /\
    (forall m, m ∈ messages d' <->
               m ∈ messages (Scenario.after StoreScenario.chat) /\
               msg_conversation_id m <> Some 5%N) /\
    document_chunks d' = document_chunks (Scenario.after StoreScenario.chat).
Proof.
  assert (H : reachable (Scenario.after StoreScenario.chat)).
  { apply (run_reachable StoreScenario.chat empty_db); [constructor|].
    vm_compute. reflexivity. }
  split; [exact H|].
  destruct (delete_conversation_cascades 5%N _ H)
    as (d' & He & _ & Hm & _ & _ & _ & _ & _ & Hc).
  exists d'. split; [exact He|]. split; [exact Hm|exact Hc].
Defined.

(** X5. An accepted [DELETE FROM repos WHERE id = r] leaves exactly the
    rows that did not hang off [r]: the other repositories, the
    conversations and documents of other repositories, the messages of
    conversations of other repositories and the chunks of documents of
    other repositories. No user is touched. *)
Theorem delete_repo_keeps_the_rest (r : string) (d d' : db) :
  reachable d ->
  exec (DeleteRepo r) d = Some d' ->
  (forall x, x ∈ repos d' <-> x ∈ repos d /\ repo_id x <> r) /\
  (forall c, c ∈ conversations d' <-> c ∈ conversations d /\ conv_repo_id c <> r) /\
  (forall x, x ∈ documents d' <-> x ∈ documents d /\ doc_repo_id x <> r) /\
  (forall m, m ∈ messages d' <->
             m ∈ messages d /\
             forall c, c ∈ conversations d -> conv_repo_id c = r ->
                       msg_conversation_id m <> Some (conversation_id c)) /\
  (forall k, k ∈ document_chunks d' <->
             k ∈ document_chunks d /\
             forall x, x ∈ documents d -> doc_repo_id x = r ->
                       chunk_document_id k <> Some (document_id x)) /\
  users d' = users d.
Proof.
  intros Hd Hexec.
  pose proof (reachable_keys_ok d Hd) as K.
  pose proof (reachable_integrity d Hd) as I.
  simpl in Hexec. unfold delete_repo in Hexec.
  destruct (decide (r ∈ repo_id <$> repos d)) as [Hr|Hr].
  - unfold checked in Hexec. destruct (decide _) as [_|]; [|discriminate].
    injection Hexec as <-. simpl.
    split; [|split; [|split; [|split; [|split; [|reflexivity]]]]].
    + intros x. rewrite list_elem_of_filter. tauto.
    + intros c. apply (kept_by_key conversation_id (fun c => conv_repo_id c = r)).
      apply K.
    + intros x. apply (kept_by_key document_id (fun x => doc_repo_id x = r)).
      apply K.
    + intros m.
      apply (kept_by_reference msg_conversation_id conversation_id
               (fun c => conv_repo_id c = r)).
    + intros k.
      apply (kept_by_reference chunk_document_id document_id
               (fun x => doc_repo_id x = r)).
  - injection Hexec as <-.
    assert (Hc : forall c, c ∈ conversations d -> conv_repo_id c <> r).
    { intros c Hc E. apply Hr. rewrite <- E.
      pose proof (fk_conversation_repo d I) as F. rewrite Forall_forall in F. now apply F. }
    assert (Hx : forall x, x ∈ documents d -> doc_repo_id x <> r).
    { intros x Hx E. apply Hr. rewrite <- E.
      pose proof (fk_document_repo d I) as F. rewrite Forall_forall in F. now apply F. }
    split; [|split; [|split; [|split; [|split; [|reflexivity]]]]].
    + intros x. split; [|tauto]. intros H. split; [exact H|].
      intros E. apply Hr. rewrite <- E. apply list_elem_of_fmap. eauto.
    + intros c. split; [|tauto]. intros H. split; [exact H|]. now apply Hc.
    + intros x. split; [|tauto]. intros H. split; [exact H|]. now apply Hx.
    + intros m. split; [|tauto]. intros H. split; [exact H|].
      intros c Hin E. now apply Hc in Hin.
    + intros k. split; [|tauto]. intros H. split; [exact H|].
      intros x Hin E. now apply Hx in Hin.
Qed.

Lemma delete_repo_keeps_the_rest_witness :
  reachable (Scenario.after StoreScenario.chat) /\
  exec (DeleteRepo "r1") (Scenario.after StoreScenario.chat) = Some empty_db /\
  (forall c, c ∈ conversations empty_db <->
             c ∈ conversations (Scenario.after StoreScenario.chat) /\ conv_repo_id c <> "r1").
Proof.
  assert (H : reachable (Scenario.after StoreScenario.chat)).
  { apply (run_reachable StoreScenario.chat empty_db); [constructor|].
    vm_compute. reflexivity. }
  assert (E : exec (DeleteRepo "r1") (Scenario.after StoreScenario.chat) = Some empty_db).
  { vm_compute. reflexivity. }
  split; [exact H|]. split; [exact E|].
  exact (proj1 (proj2 (delete_repo_keeps_the_rest "r1" _ empty_db H E))).
Defined.

(** X6. The reference from an audit row to its chunk has no [ON DELETE]
    action, so it blocks deletes. Deleting a chunk is refused exactly when
    the chunk is there and some audit row refers to it; deleting a document
    is refused exactly when some audit row refers to one of its chunks. *)
Theorem audited_chunks_block_deletes (d : db) :
  reachable d ->
  (forall c,
      exec (DeleteDocumentChunk c) d = None <->
      c ∈ chunk_id <$> document_chunks d /\
      exists a, a ∈ retrieved_chunks d /\ rc_document_chunk_id a = Some c) /\
  (forall x,
      exec (DeleteDocument x) d = None <->
      exists a k, a ∈ retrieved_chunks d /\ k ∈ document_chunks d /\
                  chunk_document_id k = Some x /\
                  rc_document_chunk_id a = Some (chunk_id k)).
Proof.
  intros Hd. pose proof (reachable_keys_ok d Hd) as K.
  pose proof (key_document_chunks d K) as Kc.
  split.
  - intros c. simpl. unfold delete_document_chunk. rewrite checked_refused. simpl.
    split.
    + intros (a & k & Ha & Hk & Hold & Hnew).
      apply list_elem_of_fmap in Hold as (row & -> & Hrow).
      apply (chunk_key_gone (fun x => chunk_id x <> c)) in Hnew; [|exact Kc|exact Hrow].
      destruct (decide (chunk_id row = c)) as [<-|Hne]; [|contradiction].
      split; [apply list_elem_of_fmap; eauto|eauto].
    + intros (Hc & a & Ha & Hk). exists a, c. repeat split; try assumption.
      apply list_elem_of_fmap in Hc as (row & -> & Hrow).
      apply (chunk_key_gone (fun x => chunk_id x <> chunk_id row)); [exact Kc|exact Hrow|].
      tauto.
  - intros x. simpl. unfold delete_document. rewrite checked_refused. simpl.
    split.
    + intros (a & k & Ha & Hk & Hold & Hnew).
      apply list_elem_of_fmap in Hold as (row & -> & Hrow).
      apply (chunk_key_gone (fun c => ~ ref_in (chunk_document_id c) [x])) in Hnew;
        [|exact Kc|exact Hrow].
      exists a, row. repeat split; try assumption.
      destruct (chunk_document_id row) as [y|]; [|exfalso; apply Hnew; simpl; tauto].
      destruct (decide (y = x)) as [->|Hne]; [reflexivity|].
      exfalso. apply Hnew. simpl. intros Hy. now apply list_elem_of_singleton in Hy.
    + intros (a & k & Ha & Hk & Hdoc & Hrc). exists a, (chunk_id k).
      repeat split; try assumption.
      * apply list_elem_of_fmap. eauto.
      * apply (chunk_key_gone (fun c => ~ ref_in (chunk_document_id c) [x]));
          [exact Kc|exact Hk|].
        intros Hno. apply Hno. rewrite Hdoc. simpl. now apply list_elem_of_singleton.
Qed.

Lemma audited_chunks_block_deletes_witness :
  reachable (Scenario.after StoreScenario.chat) /\
  exec (DeleteDocumentChunk 2%N) (Scenario.after StoreScenario.chat) = None.
Proof.
  assert (H : reachable (Scenario.after StoreScenario.chat)).
  { apply (run_reachable StoreScenario.chat empty_db); [constructor|].
    vm_compute. reflexivity. }
  split; [exact H|].
  apply (proj1 (audited_chunks_block_deletes _ H) 2%N). split.
  - vm_compute. apply elem_of_cons. right. apply elem_of_cons. now left.
  - exists StoreScenario.audit8. split; [|reflexivity].
    vm_compute. apply elem_of_cons. now left.
Defined.

(** X7. [DELETE FROM repos WHERE id = r] is refused exactly when some audit
    row refers to a chunk of a document of [r] and is not itself removed by
    the cascade, that is, its query was not asked in a conversation of
    [r]. *)
Theorem delete_repo_refused_exactly (r : string) (d : db) :
  reachable d ->
  exec (DeleteRepo r) d = None <->
  exists a k x,
    a ∈ retrieved_chunks d /\ k ∈ document_chunks d /\ x ∈ documents d /\
    doc_repo_id x = r /\ chunk_document_id k = Some (document_id x) /\
    rc_document_chunk_id a = Some (chunk_id k) /\
    forall q c, q ∈ rag_queries d -> c ∈ conversations d -> conv_repo_id c = r ->
                query_conversation_id q = Some (conversation_id c) ->
                rc_rag_query_id a <> Some (query_id q).
Proof.
  intros Hd. pose proof (reachable_keys_ok d Hd) as K.
  pose proof (reachable_integrity d Hd) as I.
  pose proof (key_document_chunks d K) as Kc.
  simpl. unfold delete_repo.
  destruct (decide (r ∈ repo_id <$> repos d)) as [Hr|Hr].
  - rewrite checked_refused. simpl. split.
    + intros (a & k & Ha & Hk & Hold & Hnew).
      apply list_elem_of_fmap in Hold as (row & -> & Hrow).
      apply (chunk_key_gone
               (fun c => ~ ref_in (chunk_document_id c)
                             (document_id <$> filter (fun x => doc_repo_id x = r) (documents d))))
        in Hnew; [|exact Kc|exact Hrow].
      destruct (decide (ref_in (chunk_document_id row)
                  (document_id <$> filter (fun x => doc_repo_id x = r) (documents d))))
        as [Hin|Hout]; [|contradiction].
      destruct (chunk_document_id row) as [y|] eqn:Ey; [|destruct Hin]. simpl in Hin.
      apply list_elem_of_fmap in Hin as (x & -> & Hx).
      apply list_elem_of_filter in Hx as [Hxr Hx].
      apply list_elem_of_filter in Ha as [Hkeep Ha].
      exists a, row, x. repeat split; try assumption.
      intros q c Hq Hc Hcr Hqc E. apply Hkeep. rewrite E. simpl.
      apply list_elem_of_fmap. exists q. split; [reflexivity|].
      apply list_elem_of_filter. split; [|exact Hq]. rewrite Hqc. simpl.
      apply list_elem_of_fmap. exists c. split; [reflexivity|].
      apply list_elem_of_filter. now split.
    + intros (a & k & x & Ha & Hk & Hx & Hxr & Hdoc & Hrc & Hfree).
      exists a, (chunk_id k). repeat split; try assumption.
      * apply list_elem_of_filter. split; [|exact Ha].
        intros Hin. destruct (rc_rag_query_id a) as [qid|] eqn:Eq; [|destruct Hin].
        simpl in Hin. apply list_elem_of_fmap in Hin as (q & -> & Hq).
        apply list_elem_of_filter in Hq as [Hqc Hq].
        destruct (query_conversation_id q) as [cid|] eqn:Ec; [|destruct Hqc].
        simpl in Hqc. apply list_elem_of_fmap in Hqc as (c & -> & Hc).
        apply list_elem_of_filter in Hc as [Hcr Hc].
        now apply (Hfree q c).
      * apply list_elem_of_fmap. eauto.
      * apply (chunk_key_gone
               (fun c => ~ ref_in (chunk_document_id c)
                             (document_id <$> filter (fun x => doc_repo_id x = r) (documents d))));
          [exact Kc|exact Hk|].
        intros Hno. apply Hno. rewrite Hdoc. simpl.
        apply list_elem_of_fmap. exists x. split; [reflexivity|].
        apply list_elem_of_filter. now split.
  - split; [discriminate|].
    intros (a & k & x & _ & _ & Hx & Hxr & _). exfalso. apply Hr. rewrite <- Hxr.
    pose proof (fk_document_repo d I) as F. rewrite Forall_forall in F. now apply F.
Qed.

Lemma delete_repo_refused_exactly_witness :
  reachable (Scenario.after Scenario.answer_once) /\
  exec (DeleteRepo "r1") (Scenario.after Scenario.answer_once) = None.
Proof.
  assert (H : reachable (Scenario.after Scenario.answer_once)).
  { apply (run_reachable Scenario.answer_once empty_db); [constructor|].
    vm_compute. reflexivity. }
  split; [exact H|].
  apply (proj2 (delete_repo_refused_exactly "r1" _ H)).
  exists (Scenario.audit 9%N 2%N (Some 2%Z)), (Scenario.chunk0 2%N), Scenario.doc1.
  repeat split.
  - vm_compute. apply elem_of_cons. right. apply elem_of_cons. now left.
  - vm_compute. apply elem_of_cons. right. apply elem_of_cons. now left.
  - vm_compute. apply elem_of_cons. now left.
  - intros q c _ Hc. vm_compute in Hc. now apply elem_of_nil in Hc.
Defined.

(** X8. A derived name holds no upper-case letter, whichever of the three
    sources it comes from; so does the name the trigger stores when the
    supplied one is [NULL] or blank. *)
Theorem derived_names_lower_case :
  (forall uri path id,
      Forall (fun c => is_upper c = false) (chars (derive_repo_name uri path id))) /\
  (forall NEW,
      match new_name NEW with
      | Some supplied => btrim supplied = ""
      | None => True
      end ->
      exists n, new_name (repos_before_ins_upd_fill_name NEW) = Some n /\
                Forall (fun c => is_upper c = false) (chars n)).
Proof.
  assert (Hc : forall c, is_upper (lower_ascii c) = false).
  { intros c. destruct c as [[] [] [] [] [] [] [] []]; reflexivity. }
  assert (Hl : forall s, Forall (fun c => is_upper c = false) (chars (lower s))).
  { intros s. unfold lower. rewrite chars_text. unfold lower_chars.
    apply Forall_forall. intros c Hin. apply list_elem_of_In, in_map_iff in Hin.
    destruct Hin as (c0 & <- & _). apply Hc. }
  assert (Hd : forall uri path id,
             Forall (fun c => is_upper c = false) (chars (derive_repo_name uri path id))).
  { intros uri path id. unfold derive_repo_name.
    destruct (matches_github _); [apply Hl|].
    destruct (negb _); [|apply Hl].
    destruct (negb _); apply Hl. }
  split; [exact Hd|].
  intros NEW Hblank. unfold repos_before_ins_upd_fill_name.
  destruct (new_name NEW) as [supplied|].
  - rewrite Hblank. simpl. eexists. split; [reflexivity|apply Hd].
  - simpl. eexists. split; [reflexivity|apply Hd].
Qed.

Lemma derived_names_lower_case_witness :
  exists n, new_name (repos_before_ins_upd_fill_name Scenario.new_upload) = Some n /\
            Forall (fun c => is_upper c = false) (chars n).
Proof.
  apply (proj2 derived_names_lower_case Scenario.new_upload). exact I.
Defined.

End StoreExtras.

(* ===================================================================== *)
(** * The page: what an ask does once it is past the gate                  *)
(* ===================================================================== *)

Module AskFacts.
Import Text Js Effects WebStorage Conversations ChatPage PageFacts.

Section Ask.
Variable JSON_stringify : json -> string.
Variable JSON_parse : string -> option json.



End Ask.

End AskFacts.

Module PageExtras.
Import Text Js Effects WebStorage Conversations ChatPage PageFacts AskFacts.

Section AskExtras.
Variable JSON_stringify : json -> string.
Variable JSON_parse : string -> option json.




(** X12. With no conversation open, an ask that is past the gate first
    creates one. If the reply names a conversation, the page navigates to
    it and the question and the answer request go out under its id. If the
    request fails or the reply names none, nothing more is asked of the
    server: no message is saved and no answer is requested, the history is
    untouched and the failure goes to the console. *)
Theorem handleAsk_opens_conversation (env : replies) (uid : option string) (q : string)
    (st : state) (ls : Storage) (repo : string) :
  present (repoId st) = Some repo -> isAsking st = false -> isRepoReady st = true ->
  present (conversationId st) = None ->
  let w' := (handleAsk JSON_stringify JSON_parse env uid q (fresh st ls)).2 in
  (forall c,
      createConversation (reply_conversation env) = Return (Some c) ->
      convo_id c <> "" ->
      exists rest,
        calls w' = CreateConversation repo
                     :: Navigate (String.append "/conversation/" (convo_id c))
                     :: CreateMessage (convo_id c) User q :: rest /\
        newRepoMode (page w') = false) /\
  (forall err,
      (createConversation (reply_conversation env) = Throw err \/
       err = Error "create conversation failed" /\
       (createConversation (reply_conversation env) = Return None \/
        exists c, createConversation (reply_conversation env) = Return (Some c) /\
                  convo_id c = "")) ->
      calls w' = [CreateConversation repo; ConsoleError "Ask error:" err] /\
      chatHistory (page w') = chatHistory st /\
      storage w' = ls /\ isAsking (page w') = false).
Proof.
  intros Hrepo Hbusy Hready Hconv. cbv zeta.
  unfold handleAsk, bind, read. cbn [fresh page]. rewrite Hrepo, Hbusy, Hready.
  unfold ret at 1.
  unfold try_finally, try_catch, ask_body, ensureConversation, bind, read, setIsAsking,
    set_page, modify, emit, await, setChatHistory, setNewRepoMode, bumpReloadKey, ret.
  cbn -[createMessage mergeCtxCache createConversation]. rewrite Hconv.
  cbn -[createMessage mergeCtxCache createConversation].
  split.
  - intros c Hc Hid. rewrite Hc. cbn -[createMessage mergeCtxCache createConversation].
    destruct (String.eqb_spec (convo_id c) "") as [|_]; [contradiction|].
    cbn -[createMessage mergeCtxCache createConversation].
    destruct (createMessage (reply_user_message env) (now_iso env)) as [m1|e1];
      cbn -[createMessage mergeCtxCache createConversation].
    2:{ eexists. split; reflexivity. }
    destruct (reply_answer env) as [a|e2];
      cbn -[createMessage mergeCtxCache createConversation].
    2:{ eexists. split; reflexivity. }
    destruct (createMessage (reply_assistant_message env) (now_iso env)) as [m2|e3];
      cbn -[createMessage mergeCtxCache createConversation].
    2:{ eexists. split; reflexivity. }
    unfold mergeCtxCache, setCtxByMessage, set_page, modify.
    destruct (default [] (contexts a)) as [|x l]; [|destruct (convo_id c =? "")];
      cbn; eexists; split; reflexivity.
  - intros err [Hc|[-> [Hc|(c & Hc & Hid)]]]; rewrite Hc; cbn.
    + repeat split.
    + repeat split.
    + rewrite Hid. cbn. repeat split.
Qed.

End AskExtras.



Lemma handleAsk_opens_conversation_witness :
  exists rest,
    calls (handleAsk JsonText.stringify JsonText.parse AskScenario.all_answered None
             "what does f do?"
             (fresh AskScenario.ready_no_conversation PageScenario.roomy)).2
    = CreateConversation "r1" :: Navigate "/conversation/c2"
        :: CreateMessage "c2" User "what does f do?" :: rest.
Proof.
  pose proof (handleAsk_opens_conversation JsonText.stringify JsonText.parse
                AskScenario.all_answered None "what does f do?"
                AskScenario.ready_no_conversation PageScenario.roomy "r1"
                eq_refl eq_refl eq_refl eq_refl) as H.
  cbv zeta in H. destruct H as [H _].
  destruct (H {| convo_id := "c2"; convo_repo_id := "r1"; convo_title := JNull;
                 convo_created_at := JNull; convo_updated_at := JNull;
                 convo_latest_question := JNull |}) as (rest & Hc & _).
  - vm_compute. reflexivity.
  - discriminate.
  - exists rest. exact Hc.
Defined.

End PageExtras.

(* ===================================================================== *)
(** * The page: readiness, notices and the form                           *)
(* ===================================================================== *)

Module ViewFacts.
Import Text Js Effects WebStorage Conversations ChatPage PageFacts AskFacts ChatView.

Lemma eqb_eq_other (a b c : string) : (a =? b) = true -> b <> c -> (a =? c) = false.
Proof.
  intros H Hne. apply String.eqb_eq in H. subst a. now apply String.eqb_neq.
Qed.

Section ReadyAsk.
Variable JSON_stringify : json -> string.
Variable JSON_parse : string -> option json.

(** Past the gate nothing reads the status and nothing raises a notice. *)
Lemma ask_body_quiet env uid repo q w :
  Forall quiet (calls w) ->
  Forall quiet
    (calls (try_finally
              (try_catch (ask_body JSON_stringify JSON_parse env uid repo q)
                         (fun e => emit (ConsoleError "Ask error:" e)))
              (setIsAsking false) w).2).
Proof.
  intros Hw.
  unfold try_finally, try_catch, ask_body, ensureConversation, bind, read, setIsAsking,
    set_page, modify, emit, await, setChatHistory, setNewRepoMode, bumpReloadKey,
    setManuallyReady, setRepoStatus, ret, throw.
  cbn -[createMessage mergeCtxCache createConversation].
  destruct (present (conversationId (page w))) as [conv|];
    cbn -[createMessage mergeCtxCache createConversation].
  - destruct (createMessage (reply_user_message env) (now_iso env)) as [m1|e1];
      cbn -[createMessage mergeCtxCache createConversation];
      [|repeat (apply Forall_app; split; [|repeat constructor]); exact Hw].
    destruct (reply_answer env) as [a|e2];
      cbn -[createMessage mergeCtxCache createConversation];
      [|repeat (apply Forall_app; split; [|repeat constructor]); exact Hw].
    destruct (createMessage (reply_assistant_message env) (now_iso env)) as [m2|e3];
      cbn -[createMessage mergeCtxCache createConversation];
      [|repeat (apply Forall_app; split; [|repeat constructor]); exact Hw].
    unfold mergeCtxCache, setCtxByMessage, set_page, modify.
    destruct (default [] (contexts a)) as [|x l]; [|destruct (conv =? "")];
      cbn; repeat (apply Forall_app; split; [|repeat constructor]); exact Hw.
  - destruct (createConversation (reply_conversation env)) as [[c|]|e0];
      cbn -[createMessage mergeCtxCache createConversation];
      [|repeat (apply Forall_app; split; [|repeat constructor]); exact Hw ..].
    destruct (convo_id c =? "") eqn:Hid;
      cbn -[createMessage mergeCtxCache createConversation];
      [repeat (apply Forall_app; split; [|repeat constructor]); exact Hw|].
    destruct (createMessage (reply_user_message env) (now_iso env)) as [m1|e1];
      cbn -[createMessage mergeCtxCache createConversation];
      [|repeat (apply Forall_app; split; [|repeat constructor]); exact Hw].
    destruct (reply_answer env) as [a|e2];
      cbn -[createMessage mergeCtxCache createConversation];
      [|repeat (apply Forall_app; split; [|repeat constructor]); exact Hw].
    destruct (createMessage (reply_assistant_message env) (now_iso env)) as [m2|e3];
      cbn -[createMessage mergeCtxCache createConversation];
      [|repeat (apply Forall_app; split; [|repeat constructor]); exact Hw].
    unfold mergeCtxCache, setCtxByMessage, set_page, modify.
    destruct (default [] (contexts a)) as [|x l]; [|rewrite Hid];
      cbn; repeat (apply Forall_app; split; [|repeat constructor]); exact Hw.
Qed.

End ReadyAsk.

End ViewFacts.

Module ViewExtras.
Import Text Js Effects WebStorage Conversations ChatPage PageFacts AskFacts ChatView
  ViewFacts.

Section ReadyExtras.
Variable JSON_stringify : json -> string.
Variable JSON_parse : string -> option json.

(** X13. On a page that already counts as ready, an ask goes straight to
    the server: it does not read the repository status again and raises no
    notice, whatever the requests do. *)
Theorem ready_ask_is_quiet (env : replies) (uid : option string) (q : string)
    (st : state) (ls : Storage) :
  isRepoReady st = true ->
  forall c, c ∈ calls (handleAsk JSON_stringify JSON_parse env uid q (fresh st ls)).2 ->
            (forall r, c <> GetRepoStatus r) /\ (forall msg, c <> ToastError msg).
Proof.
  intros Hready c Hin.
  assert (Hq : quiet c).
  { revert c Hin. apply Forall_forall.
    destruct (present (repoId st)) as [repo|] eqn:Hrepo.
    2:{ rewrite handleAsk_no_repo by exact Hrepo. constructor. }
    destruct (isAsking st) eqn:Hbusy.
    { rewrite handleAsk_busy by exact Hbusy. constructor. }
    unfold handleAsk, bind, read. cbn [fresh page]. rewrite Hrepo, Hbusy, Hready.
    unfold ret at 1. unfold setIsAsking at 1. unfold set_page, modify at 1.
    apply ask_body_quiet. constructor. }
  destruct c; try destruct Hq; split; discriminate.
Qed.

End ReadyExtras.

Lemma ready_ask_is_quiet_witness :
  isRepoReady AskScenario.ready = true /\
  Forall (fun c => (forall r, c <> GetRepoStatus r) /\ (forall msg, c <> ToastError msg))
         (calls (handleAsk JsonText.stringify JsonText.parse AskScenario.all_answered None
                   "what does f do?" (fresh AskScenario.ready PageScenario.roomy)).2).
Proof.
  split; [reflexivity|]. apply Forall_forall.
  exact (ready_ask_is_quiet JsonText.stringify JsonText.parse AskScenario.all_answered
           None "what does f do?" AskScenario.ready PageScenario.roomy eq_refl).
Defined.

(** X14. The indexing notice is shown only for a status that does not
    count as ready (label "indexing" or "upload", no documents) and only
    while no ask is under way. The upload form is shown whenever no
    repository is selected or the page is in new-repository mode, and
    never for a selected repository with an open conversation or a
    non-empty history outside that mode. *)
Theorem notices_follow_the_status (st : state) :
  (showIndexingNotice st = true ->
   status_ready (repoStatus st) = false /\ isAsking st = false /\
   (status_label (repoStatus st) = "indexing" \/ status_label (repoStatus st) = "upload")) /\
  (newRepoMode st = true \/ present (repoId st) = None -> showUploadForm st = true) /\
  (newRepoMode st = false -> is_Some (present (repoId st)) ->
   is_Some (present (conversationId st)) \/ chatHistory st <> [] ->
   showUploadForm st = false) /\
  showUploadForm (onNewRepo st) = true.
Proof.
  split; [|split; [|split]].
  - unfold showIndexingNotice, status_ready.
    destruct (repoStatus st) as [s|]; [|discriminate].
    destruct (0 <? status_docs (Some s))%Z; [discriminate|].
    intros H. apply andb_true_iff in H as [Hl Ha].
    apply negb_true_iff in Ha. rewrite orb_false_r.
    apply orb_true_iff in Hl as [Hl|Hl].
    + rewrite (eqb_eq_other _ _ "indexed" Hl), (eqb_eq_other _ _ "done" Hl) by discriminate.
      apply String.eqb_eq in Hl. auto.
    + rewrite (eqb_eq_other _ _ "indexed" Hl), (eqb_eq_other _ _ "done" Hl) by discriminate.
      apply String.eqb_eq in Hl. auto.
  - unfold showUploadForm. intros [H|H].
    + now rewrite H.
    + rewrite H. now destruct (newRepoMode st).
  - unfold showUploadForm. intros Hn [r Hr] Hc. rewrite Hn, Hr.
    destruct (present (conversationId st)) as [c|]; [reflexivity|].
    destruct (chatHistory st); [|reflexivity].
    destruct Hc as [[x Hx]|Hx]; [discriminate|contradiction].
  - reflexivity.
Qed.

Lemma notices_follow_the_status_witness :
  status_ready (repoStatus AskScenario.indexing) = false /\
  isAsking AskScenario.indexing = false /\
  (status_label (repoStatus AskScenario.indexing) = "indexing" \/
   status_label (repoStatus AskScenario.indexing) = "upload").
Proof.
  apply (proj1 (notices_follow_the_status AskScenario.indexing)). reflexivity.
Defined.



End ViewExtras.

(* ===================================================================== *)
(** * The client wrappers and the form: retries and hand-over             *)
(* ===================================================================== *)

Module ClientExtras.
Import Text Js Conversations Repos.



End ClientExtras.

Module FormExtras.
Import Text Js QueryForm.



End FormExtras.
